(** * Selection-state engine of the artwork table (useArtworkSelection.ts)
      and the record-fetch service (artworkService.ts)

    Shallow embedding of the reducer, the membership and count queries, the
    descriptor projection and the fetch function, followed by the properties
    of the specification that concern them.

    Results.
    - Proved as the specification states them: the precedence of the
      membership query, the effect of TOGGLE_ROW, the clamp of BULK_SELECT,
      the frame of UPDATE_TOTAL_RECORDS, the pristine NONE states and the
      failure classes of the fetch function.
    - Proved in an amended form, next to a reachable state on which the
      original statement fails: the bounds of the selected count, invariant
      I1 across the two keys of a record, the double toggle and the
      descriptor round trip.

    Modelling conventions.
    - A JavaScript [number] that holds a record count or an absolute index is
      an integer [Z]; [Math.min]/[Math.max] are [Z.min]/[Z.max].  [NaN] and
      fractional values are outside the model.
    - A JavaScript [Set] is a [gset]; [s.add(x)] is [{[x]} ∪ s] and
      [s.delete(x)] is [s ∖ {[x]}].  A [Map] is a [gmap]; [m.set(k, v)] is
      [<[k:=v]> m].  The insertion order that [Set] iteration follows is not
      modelled: every [forEach] below only adds to a set or increments a
      counter, so its result does not depend on the order, and the arrays of
      a descriptor are given up to order ([elements]).
    - The reducer is pure in the source (it clones before it mutates), so
      every command is a function from state to state. *)

From stdpp Require Import gmap strings list fin_maps fin_sets pretty.
From Stdlib Require Import ZArith Lia.

Local Open Scope Z_scope.
#[local] Set Warnings "-clear-no-such-hyp".

(** ** Data model *)

Inductive SelectionMode : Set := NONE | EXPLICIT | RANGE | ALL.

#[global] Instance SelectionMode_eq_dec : EqDecision SelectionMode.
Proof. solve_decision. Defined.

Record SelectionOverrides : Type := {
  includedIds : gset string;
  excludedIds : gset string;
  includedIndices : gset Z;
  excludedIndices : gset Z;
}.

Record SelectionState : Type := {
  mode : SelectionMode;
  rangeCount : Z;
  totalRecords : Z;
  overrides : SelectionOverrides;
  indexToIdCache : gmap Z string;
  idToIndexCache : gmap string Z;
}.

(** An element of the [rows] payload: [{ id, absoluteIndex }]. *)
Record IndexedRow : Type := {
  rowId : string;
  absoluteIndex : Z;
}.

Inductive SelectionAction : Type :=
  | TOGGLE_ROW (id : string) (index : Z)
  | SELECT_ALL_PAGE (rows : list IndexedRow)
  | DESELECT_ALL_PAGE (rows : list IndexedRow)
  | BULK_SELECT (count : Z)
  | SELECT_ALL
  | CLEAR_SELECTION
  | UPDATE_TOTAL_RECORDS (total : Z)
  | SYNC_PAGE_SELECTION (rows : list IndexedRow) (selected : bool).

Record SelectionDescriptor : Type := {
  descMode : SelectionMode;
  descRangeCount : option Z;
  descIncludedIds : option (list string);
  descExcludedIds : option (list string);
  descExcludedIndices : option (list Z);
}.

(** ** State construction *)

Definition createFreshOverrides : SelectionOverrides :=
  {| includedIds := ∅; excludedIds := ∅;
     includedIndices := ∅; excludedIndices := ∅ |}.

Definition createInitialState (total : Z) : SelectionState :=
  {| mode := NONE;
     rangeCount := 0;
     totalRecords := total;
     overrides := createFreshOverrides;
     indexToIdCache := ∅;
     idToIndexCache := ∅ |}.

(** ** Queries *)

Definition wouldBaseModeSelect (state : SelectionState) (index : Z) : bool :=
  match mode state with
  | ALL => true
  | RANGE => bool_decide (index < rangeCount state)
  | NONE | EXPLICIT => false
  end.

Definition checkIsRowSelected (state : SelectionState) (id : string) (index : Z)
  : bool :=
  let ov := overrides state in
  if decide (id ∈ excludedIds ov) then false
  else if decide (id ∈ includedIds ov) then true
  else if decide (index ∈ excludedIndices ov) then false
  else if decide (index ∈ includedIndices ov) then true
  else match mode state with
       | NONE => false
       | ALL => true
       | RANGE => bool_decide (index < rangeCount state)
       | EXPLICIT => false
       end.

(** [ids.forEach(id => { const index = cache.get(id);
                         if (index !== undefined) acc.add(index); })] *)
Definition addKnownIndices (cache : gmap string Z) (ids : gset string)
    (acc : gset Z) : gset Z :=
  set_fold (λ id acc, match cache !! id with
                      | Some index => {[index]} ∪ acc
                      | None => acc
                      end) acc ids.

(** [ids.forEach(id => { if (!cache.has(id)) n++; })] *)
Definition countUnknownIds (cache : gmap string Z) (ids : gset string) : Z :=
  set_fold (λ id n, match cache !! id with
                    | Some _ => n
                    | None => n + 1
                    end) 0 ids.

(** [includedIndices.forEach(index =>
       { if (!wouldBaseModeSelect(state, index)) n++; })] *)
Definition countIndicesOutsideBase (state : SelectionState)
    (indices : gset Z) (n0 : Z) : Z :=
  set_fold (λ index n, if wouldBaseModeSelect state index then n else n + 1)
           n0 indices.

(** The second loop over [includedIds] of [calculateSelectedCount]. *)
Definition countIdsOutsideBase (state : SelectionState)
    (ids : gset string) (n0 : Z) : Z :=
  set_fold (λ id n, match idToIndexCache state !! id with
                    | Some index =>
                        if wouldBaseModeSelect state index then n else n + 1
                    | None => n + 1
                    end) n0 ids.

Definition calculateSelectedCount (state : SelectionState) : Z :=
  let ov := overrides state in
  let baseCount :=
    match mode state with
    | NONE => 0
    | ALL => totalRecords state
    | RANGE => Z.min (rangeCount state) (totalRecords state)
    | EXPLICIT => 0
    end in
  match mode state with
  | EXPLICIT | NONE =>
      let included :=
        addKnownIndices (idToIndexCache state) (includedIds ov)
                        (includedIndices ov) in
      let unknownIdCount :=
        countUnknownIds (idToIndexCache state) (includedIds ov) in
      Z.of_nat (size included) + unknownIdCount
  | RANGE | ALL =>
      let excluded :=
        addKnownIndices (idToIndexCache state) (excludedIds ov)
                        (excludedIndices ov) in
      let unknownExcludedCount :=
        countUnknownIds (idToIndexCache state) (excludedIds ov) in
      let additionalInclusions :=
        countIdsOutsideBase state (includedIds ov)
          (countIndicesOutsideBase state (includedIndices ov) 0) in
      Z.max 0 (baseCount - Z.of_nat (size excluded) - unknownExcludedCount
               + additionalInclusions)
  end.

(** ** The reducer *)

(** The three objects a page loop mutates: the cloned overrides and the two
    cloned caches. *)
Record PageLoop : Type := {
  newOverrides : SelectionOverrides;
  newIndexToIdCache : gmap Z string;
  newIdToIndexCache : gmap string Z;
}.

Definition startLoop (state : SelectionState) : PageLoop :=
  {| newOverrides := overrides state;
     newIndexToIdCache := indexToIdCache state;
     newIdToIndexCache := idToIndexCache state |}.

(** Body of a row that is being selected (SELECT_ALL_PAGE, and
    SYNC_PAGE_SELECTION with [selected]). *)
Definition selectRow (state : SelectionState) (acc : PageLoop) (r : IndexedRow)
  : PageLoop :=
  let ov := newOverrides acc in
  let exIds := excludedIds ov ∖ {[rowId r]} in
  let exIdx := excludedIndices ov ∖ {[absoluteIndex r]} in
  {| newIndexToIdCache := <[absoluteIndex r := rowId r]> (newIndexToIdCache acc);
     newIdToIndexCache := <[rowId r := absoluteIndex r]> (newIdToIndexCache acc);
     newOverrides :=
       if wouldBaseModeSelect state (absoluteIndex r)
       then {| includedIds := includedIds ov;
               excludedIds := exIds;
               includedIndices := includedIndices ov;
               excludedIndices := exIdx |}
       else {| includedIds := {[rowId r]} ∪ includedIds ov;
               excludedIds := exIds;
               includedIndices := {[absoluteIndex r]} ∪ includedIndices ov;
               excludedIndices := exIdx |} |}.

(** Body of a row that is being deselected (DESELECT_ALL_PAGE, and
    SYNC_PAGE_SELECTION without [selected]). *)
Definition deselectRow (state : SelectionState) (acc : PageLoop)
    (r : IndexedRow) : PageLoop :=
  let ov := newOverrides acc in
  let inIds := includedIds ov ∖ {[rowId r]} in
  let inIdx := includedIndices ov ∖ {[absoluteIndex r]} in
  {| newIndexToIdCache := <[absoluteIndex r := rowId r]> (newIndexToIdCache acc);
     newIdToIndexCache := <[rowId r := absoluteIndex r]> (newIdToIndexCache acc);
     newOverrides :=
       if wouldBaseModeSelect state (absoluteIndex r)
       then {| includedIds := inIds;
               excludedIds := {[rowId r]} ∪ excludedIds ov;
               includedIndices := inIdx;
               excludedIndices := {[absoluteIndex r]} ∪ excludedIndices ov |}
       else {| includedIds := inIds;
               excludedIds := excludedIds ov;
               includedIndices := inIdx;
               excludedIndices := excludedIndices ov |} |}.

(** [{ ...state, mode, overrides, indexToIdCache, idToIndexCache }] *)
Definition withLoop (state : SelectionState) (newMode : SelectionMode)
    (acc : PageLoop) : SelectionState :=
  {| mode := newMode;
     rangeCount := rangeCount state;
     totalRecords := totalRecords state;
     overrides := newOverrides acc;
     indexToIdCache := newIndexToIdCache acc;
     idToIndexCache := newIdToIndexCache acc |}.

Definition selectionReducer (state : SelectionState) (action : SelectionAction)
  : SelectionState :=
  match action with
  | TOGGLE_ROW id index =>
      let isCurrentlySelected := checkIsRowSelected state id index in
      let ov := overrides state in
      let ov' :=
        if isCurrentlySelected then
          let inIds := includedIds ov ∖ {[id]} in
          let inIdx := includedIndices ov ∖ {[index]} in
          if wouldBaseModeSelect state index
          then {| includedIds := inIds;
                  excludedIds := {[id]} ∪ excludedIds ov;
                  includedIndices := inIdx;
                  excludedIndices := {[index]} ∪ excludedIndices ov |}
          else {| includedIds := inIds;
                  excludedIds := excludedIds ov;
                  includedIndices := inIdx;
                  excludedIndices := excludedIndices ov |}
        else
          let exIds := excludedIds ov ∖ {[id]} in
          let exIdx := excludedIndices ov ∖ {[index]} in
          if wouldBaseModeSelect state index
          then {| includedIds := includedIds ov;
                  excludedIds := exIds;
                  includedIndices := includedIndices ov;
                  excludedIndices := exIdx |}
          else {| includedIds := {[id]} ∪ includedIds ov;
                  excludedIds := exIds;
                  includedIndices := {[index]} ∪ includedIndices ov;
                  excludedIndices := exIdx |} in
      let newMode :=
        if bool_decide (mode state = NONE) && negb isCurrentlySelected
        then EXPLICIT else mode state in
      {| mode := newMode;
         rangeCount := rangeCount state;
         totalRecords := totalRecords state;
         overrides := ov';
         indexToIdCache := <[index := id]> (indexToIdCache state);
         idToIndexCache := <[id := index]> (idToIndexCache state) |}
  | SELECT_ALL_PAGE rows =>
      let acc := foldl (selectRow state) (startLoop state) rows in
      let newMode :=
        if bool_decide (mode state = NONE) then EXPLICIT else mode state in
      withLoop state newMode acc
  | DESELECT_ALL_PAGE rows =>
      let acc := foldl (deselectRow state) (startLoop state) rows in
      withLoop state (mode state) acc
  | BULK_SELECT count =>
      let clampedCount := Z.min (Z.max 0 count) (totalRecords state) in
      if decide (clampedCount = 0)
      then {| mode := NONE;
              rangeCount := 0;
              totalRecords := totalRecords state;
              overrides := createFreshOverrides;
              indexToIdCache := indexToIdCache state;
              idToIndexCache := idToIndexCache state |}
      else {| mode := RANGE;
              rangeCount := clampedCount;
              totalRecords := totalRecords state;
              overrides := createFreshOverrides;
              indexToIdCache := indexToIdCache state;
              idToIndexCache := idToIndexCache state |}
  | SELECT_ALL =>
      {| mode := ALL;
         rangeCount := totalRecords state;
         totalRecords := totalRecords state;
         overrides := createFreshOverrides;
         indexToIdCache := indexToIdCache state;
         idToIndexCache := idToIndexCache state |}
  | CLEAR_SELECTION =>
      {| mode := NONE;
         rangeCount := 0;
         totalRecords := totalRecords state;
         overrides := createFreshOverrides;
         indexToIdCache := indexToIdCache state;
         idToIndexCache := idToIndexCache state |}
  | UPDATE_TOTAL_RECORDS total =>
      let newRangeCount :=
        if bool_decide (mode state = RANGE)
        then Z.min (rangeCount state) total
        else rangeCount state in
      {| mode := mode state;
         rangeCount := newRangeCount;
         totalRecords := total;
         overrides := overrides state;
         indexToIdCache := indexToIdCache state;
         idToIndexCache := idToIndexCache state |}
  | SYNC_PAGE_SELECTION rows selected =>
      let acc :=
        foldl (λ acc r, if selected then selectRow state acc r
                        else deselectRow state acc r)
              (startLoop state) rows in
      let newMode :=
        if bool_decide (mode state = NONE) && selected then EXPLICIT
        else mode state in
      withLoop state newMode acc
  end.

(** ** Descriptor *)

Definition nonEmptyArray `{Countable A} (s : gset A) : option (list A) :=
  if decide (0 < Z.of_nat (size s)) then Some (elements s) else None.

Definition getSelectionDescriptor (state : SelectionState)
  : SelectionDescriptor :=
  let ov := overrides state in
  match mode state with
  | RANGE =>
      {| descMode := RANGE;
         descRangeCount := Some (rangeCount state);
         descIncludedIds := None;
         descExcludedIds := nonEmptyArray (excludedIds ov);
         descExcludedIndices := nonEmptyArray (excludedIndices ov) |}
  | ALL =>
      {| descMode := ALL;
         descRangeCount := None;
         descIncludedIds := None;
         descExcludedIds := nonEmptyArray (excludedIds ov);
         descExcludedIndices := None |}
  | EXPLICIT =>
      {| descMode := EXPLICIT;
         descRangeCount := None;
         descIncludedIds := Some (elements (includedIds ov));
         descExcludedIds := None;
         descExcludedIndices := None |}
  | NONE =>
      {| descMode := NONE;
         descRangeCount := None;
         descIncludedIds := None;
         descExcludedIds := None;
         descExcludedIndices := None |}
  end.

(** Membership reconstructed from a descriptor alone, as a consumer of the
    wire form would do it.  It follows the words of the specification: the
    precedence and the base-mode defaults of the membership query, applied to
    the fields the descriptor carries, an absent field meaning "no override
    of that kind". *)
Definition inArray `{EqDecision A} (x : A) (field : option (list A)) : bool :=
  match field with
  | Some l => bool_decide (x ∈ l)
  | None => false
  end.

Definition descriptorSelects (d : SelectionDescriptor) (id : string)
    (index : Z) : bool :=
  if inArray id (descExcludedIds d) then false
  else if inArray id (descIncludedIds d) then true
  else if inArray index (descExcludedIndices d) then false
  else match descMode d with
       | NONE => false
       | ALL => true
       | RANGE => match descRangeCount d with
                  | Some n => bool_decide (index < n)
                  | None => false
                  end
       | EXPLICIT => false
       end.

(** ** Reachable states *)

Definition run (total : Z) (actions : list SelectionAction) : SelectionState :=
  foldl selectionReducer (createInitialState total) actions.

Inductive reachable : SelectionState → Prop :=
  | reachable_init total : reachable (createInitialState total)
  | reachable_step state action :
      reachable state → reachable (selectionReducer state action).

(** ** The hook: page-scoped queries and commands

    The functions that [useArtworkSelection] returns.  A command of the hook
    dispatches one action; it is modelled by the action it dispatches, which
    the reducer then applies to the state. *)

(** [T extends PageRow]: a row type that carries an [id]. *)
Class PageRow (T : Type) : Type := rowIdOf : T → string.

(** [pageData.map((row, localIndex) =>
       ({ id: row.id, absoluteIndex: currentPage * rowsPerPage + localIndex }))] *)
Definition rowsWithIndices `{PageRow T} (rowsPerPage : Z) (pageData : list T)
    (currentPage : Z) : list IndexedRow :=
  imap (λ localIndex row,
          {| rowId := rowIdOf row;
             absoluteIndex := currentPage * rowsPerPage + Z.of_nat localIndex |})
       pageData.

(** [pageData.map((row, localIndex) =>
       checkIsRowSelected(state, row.id, currentPage * rowsPerPage + localIndex))] *)
Definition selectionStates `{PageRow T} (state : SelectionState)
    (rowsPerPage : Z) (pageData : list T) (currentPage : Z) : list bool :=
  imap (λ localIndex row,
          checkIsRowSelected state (rowIdOf row)
            (currentPage * rowsPerPage + Z.of_nat localIndex))
       pageData.

Definition onRowSelect (id : string) (index : Z) : SelectionAction :=
  TOGGLE_ROW id index.

Definition onSelectAllCurrentPage `{PageRow T} (state : SelectionState)
    (rowsPerPage : Z) (pageData : list T) (currentPage : Z)
  : SelectionAction :=
  let rows := rowsWithIndices rowsPerPage pageData currentPage in
  let allSelected :=
    forallb (λ r, checkIsRowSelected state (rowId r) (absoluteIndex r)) rows in
  if allSelected then DESELECT_ALL_PAGE rows else SELECT_ALL_PAGE rows.

Definition onBulkSelect (count : Z) : SelectionAction := BULK_SELECT count.

Definition onSelectAll : SelectionAction := SELECT_ALL.

Definition onClearSelection : SelectionAction := CLEAR_SELECTION.

Definition updateTotalRecords (newTotal : Z) : SelectionAction :=
  UPDATE_TOTAL_RECORDS newTotal.

Definition isCurrentPageFullySelected `{PageRow T} (state : SelectionState)
    (rowsPerPage : Z) (pageData : list T) (currentPage : Z) : bool :=
  if decide (length pageData = 0%nat) then false
  else forallb (λ b, b) (selectionStates state rowsPerPage pageData currentPage).

Definition isCurrentPageIndeterminate `{PageRow T} (state : SelectionState)
    (rowsPerPage : Z) (pageData : list T) (currentPage : Z) : bool :=
  if decide (length pageData = 0%nat) then false
  else
    let states := selectionStates state rowsPerPage pageData currentPage in
    let someSelected := existsb (λ b, b) states in
    let allSelected := forallb (λ b, b) states in
    someSelected && negb allSelected.

(** [pageData.filter((row, localIndex) => checkIsRowSelected(...))]: the rows
    whose entry of [selectionStates] is true, in page order. *)
Definition getSelectedRowsOnPage `{PageRow T} (state : SelectionState)
    (rowsPerPage : Z) (pageData : list T) (currentPage : Z) : list T :=
  (filter (λ p, p.2 = true)
          (zip pageData
               (selectionStates state rowsPerPage pageData currentPage))).*1.

Record SelectionSummary : Type := {
  selectedCount : Z;
  isAllSelected : bool;
  isIndeterminate : bool;
  isEmpty : bool;
  descriptor : SelectionDescriptor;
}.

Definition selectionSummary (state : SelectionState) : SelectionSummary :=
  let selectedCount := calculateSelectedCount state in
  let isAllSelected :=
    bool_decide (selectedCount = totalRecords state)
    && bool_decide (totalRecords state > 0) in
  let isEmpty := bool_decide (selectedCount = 0) in
  let isIndeterminate := negb isEmpty && negb isAllSelected in
  {| selectedCount := selectedCount;
     isAllSelected := isAllSelected;
     isIndeterminate := isIndeterminate;
     isEmpty := isEmpty;
     descriptor := getSelectionDescriptor state |}.

(** ** The record-fetch service (artworkService.ts)

    [fetchArtworks] is asynchronous only in that it awaits two promises, one
    after the other: [fetch(url)] and [response.json()].  Each is modelled by
    its settled outcome, supplied by the environment; a rejection carries its
    reason.  The value that [response.json()] yields is an arbitrary JSON
    value: the type annotation [ArtworkAPIResponse] is not checked at run
    time, only the three truthiness tests of the function are. *)

Module ArtworkService.

#[local] Unset Elimination Schemes.
Inductive JSON : Type :=
  | JNull
  | JBool (b : bool)
  | JNumber (n : Z)
  | JString (s : string)
  | JArray (items : list JSON)
  | JObject (fields : list (string * JSON)).
#[local] Set Elimination Schemes.

(** [!v] is false exactly on the truthy values. *)
Definition truthy (v : JSON) : bool :=
  match v with
  | JNull => false
  | JBool b => b
  | JNumber n => negb (bool_decide (n = 0))
  | JString s => negb (bool_decide (s = EmptyString))
  | JArray _ | JObject _ => true
  end.

Fixpoint lookupField (key : string) (fields : list (string * JSON))
  : option JSON :=
  match fields with
  | [] => None
  | (k, v) :: rest => if decide (k = key) then Some v else lookupField key rest
  end.

(** [v.key] for a key that no primitive wrapper or array defines ([data],
    [pagination]); [None] is [undefined]. *)
Definition getProperty (v : JSON) (key : string) : option JSON :=
  match v with
  | JObject fields => lookupField key fields
  | _ => None
  end.

Definition truthyProperty (v : JSON) (key : string) : bool :=
  match getProperty v key with
  | Some w => truthy w
  | None => false
  end.

Record Response : Type := {
  ok : bool;
  status : Z;
  statusText : string;
  (** outcome of [response.json()]: the rejection reason or the value *)
  json : string + JSON;
}.

(** Outcome of [fetch(url)]: the rejection reason or the response. *)
Definition FetchOutcome : Type := string + Response.

Record URL : Type := {
  href : string;
  searchParams : list (string * string);
}.

Record ArtworkServiceError : Type := {
  message : string;
  statusCode : option Z;
  cause : option string;
}.

Definition API_BASE_URL : string := "https://api.artic.edu/api/v1/artworks".

Definition API_FIELDS : list string :=
  ["id"; "title"; "place_of_origin"; "artist_titles"; "inscriptions";
   "date_start"; "date_end"].

(** The result of a call: the requests it issued, in order, and either the
    error it threw or the value it returned. *)
Record Call : Type := {
  requests : list URL;
  outcome : ArtworkServiceError + JSON;
}.

(** [throw new ArtworkServiceError(msg, code, why)] after the requests
    [reqs]. *)
Definition throwError (reqs : list URL) (msg : string)
    (code : option Z) (why : option string) : Call :=
  {| requests := reqs;
     outcome := inl {| message := msg; statusCode := code; cause := why |} |}.

(** The message chosen by the [switch] on [response.status]; [text] is
    [response.statusText || 'Unknown error']. *)
Definition httpErrorMessage (st : Z) (text : string) : string :=
  if decide (st = 400) then "Bad Request: Invalid parameters sent to API"
  else if decide (st = 404)
  then "Not Found: The requested resource does not exist"
  else if decide (st = 429)
  then "Rate Limited: Too many requests. Please try again later"
  else if decide (st = 500 ∨ st = 502 ∨ st = 503 ∨ st = 504)
  then "Server Error: The Art Institute of Chicago API is temporarily unavailable"
  else "API Error: " +:+ pretty st +:+ " " +:+ text.

Definition fetchArtworks (fetch : URL → FetchOutcome) (page limit : Z) : Call :=
  if decide (page < 1)
  then throwError [] "Page number must be at least 1" None None
  else if decide (limit < 1 ∨ limit > 100)
  then throwError [] "Limit must be between 1 and 100" None None
  else
    let url :=
      {| href := API_BASE_URL;
         searchParams := [("page", pretty page); ("limit", pretty limit);
                          ("fields", String.concat "," API_FIELDS)] |} in
    match fetch url with
    | inl error =>
        throwError [url]
          "Network error: Unable to connect to the Art Institute of Chicago API"
          None (Some error)
    | inr response =>
        if negb (ok response)
        then
          let text := if decide (statusText response = EmptyString)
                      then "Unknown error" else statusText response in
          throwError [url] (httpErrorMessage (status response) text)
                     (Some (status response)) None
        else
          match json response with
          | inl error =>
              throwError [url]
                "Parse Error: Failed to parse API response as JSON"
                None (Some error)
          | inr data =>
              if negb (truthy data) || negb (truthyProperty data "data")
                 || negb (truthyProperty data "pagination")
              then throwError [url]
                     "Invalid Response: API response does not match expected format"
                     None None
              else {| requests := [url]; outcome := inr data |}
          end
    end.

(** The failure classes of the specification. *)
Inductive FailureClass : Set :=
  | InvalidPage
  | InvalidLimit
  | ConnectivityFailure
  | HttpFailure
  | MalformedBody
  | UnexpectedFormat.

(** The request of a call whose arguments pass validation. *)
Definition requestFor (page limit : Z) : URL :=
  {| href := API_BASE_URL;
     searchParams := [("page", pretty page); ("limit", pretty limit);
                      ("fields", String.concat "," API_FIELDS)] |}.

(** The condition of each class, in the words of the specification: the
    arguments are checked first, then the connection, the HTTP status, the
    body as JSON and last the two fields; a field the body does not carry, or
    carries with a falsy value ([null], [false], [0], the empty string), is
    lacking. *)
Definition failureOf (fetch : URL → FetchOutcome) (page limit : Z)
  : option FailureClass :=
  if decide (page < 1) then Some InvalidPage
  else if decide (limit < 1 ∨ 100 < limit) then Some InvalidLimit
  else match fetch (requestFor page limit) with
       | inl _ => Some ConnectivityFailure
       | inr response =>
           if ok response then
             match json response with
             | inl _ => Some MalformedBody
             | inr data =>
                 if truthy data && truthyProperty data "data"
                    && truthyProperty data "pagination"
                 then None else Some UnexpectedFormat
             end
           else Some HttpFailure
       end.

(** The messages of each failure class. *)
Definition messageOfClass (c : FailureClass) (m : string) : Prop :=
  match c with
  | InvalidPage => m = "Page number must be at least 1"
  | InvalidLimit => m = "Limit must be between 1 and 100"
  | ConnectivityFailure =>
      m = "Network error: Unable to connect to the Art Institute of Chicago API"
  | HttpFailure =>
      m = "Bad Request: Invalid parameters sent to API"
      ∨ m = "Not Found: The requested resource does not exist"
      ∨ m = "Rate Limited: Too many requests. Please try again later"
      ∨ m = "Server Error: The Art Institute of Chicago API is temporarily unavailable"
      ∨ ∃ rest, m = "API Error: " +:+ rest
  | MalformedBody => m = "Parse Error: Failed to parse API response as JSON"
  | UnexpectedFormat =>
      m = "Invalid Response: API response does not match expected format"
  end.

End ArtworkService.

(** ** Row types (types.ts)

    Numbers are integers, and [String(n)] is their decimal form.  The fields
    that [transformArtwork] guards against a missing value are options, [None]
    standing for [null]: the interface declares [title] and [artist_titles]
    without [null], the guards accept it. *)

Module ArtworkData.
Record t : Type := {
  id : Z;
  title : option string;
  place_of_origin : option string;
  artist_titles : option (list string);
  inscriptions : option string;
  date_start : option Z;
  date_end : option Z;
}.
End ArtworkData.

Module Artwork.
Record t : Type := {
  id : string;
  title : string;
  placeOfOrigin : string;
  artists : list string;
  artistDisplay : string;
  inscriptions : string;
  dateStart : string;
  dateEnd : string;
}.
End Artwork.

(** [v || fallback] on a string that may be [null]: the empty string is
    falsy. *)
Definition orElse (v : option string) (fallback : string) : string :=
  match v with
  | Some s => if decide (s = EmptyString) then fallback else s
  | None => fallback
  end.

Definition transformArtwork (data : ArtworkData.t) : Artwork.t :=
  {| Artwork.id := pretty (ArtworkData.id data);
     Artwork.title := orElse (ArtworkData.title data) "Untitled";
     Artwork.placeOfOrigin := orElse (ArtworkData.place_of_origin data) "Unknown";
     Artwork.artists :=
       match ArtworkData.artist_titles data with
       | Some titles => titles
       | None => []
       end;
     Artwork.artistDisplay :=
       match ArtworkData.artist_titles data with
       | Some (first :: rest) => String.concat ", " (first :: rest)
       | Some [] | None => "Unknown Artist"
       end;
     Artwork.inscriptions := orElse (ArtworkData.inscriptions data) "—";
     Artwork.dateStart :=
       match ArtworkData.date_start data with
       | Some n => pretty n
       | None => "—"
       end;
     Artwork.dateEnd :=
       match ArtworkData.date_end data with
       | Some n => pretty n
       | None => "—"
       end |}.

#[global] Instance Artwork_PageRow : PageRow Artwork.t := Artwork.id.

(** ** The data hook (useArtworkData.ts): the current page and the request *)

Module ArtworkDataHook.

Definition DEFAULT_ROWS_PER_PAGE : Z := 12.

(** [onPageChange(newPage)] as a function of the current page: a negative
    page is ignored, any other is stored by [setCurrentPage]. *)
Definition onPageChange (newPage : Z) (currentPage : Z) : Z :=
  if decide (newPage < 0) then currentPage else newPage.

(** The call that [loadArtworks] makes: the API counts pages from 1, the
    state from 0. *)
Definition loadRequest (fetch : ArtworkService.URL → ArtworkService.FetchOutcome)
    (currentPage rowsPerPage : Z) : ArtworkService.Call :=
  let apiPage := currentPage + 1 in
  ArtworkService.fetchArtworks fetch apiPage rowsPerPage.

End ArtworkDataHook.

(** ** The table (ArtworkTable.tsx): the handlers that drive the two hooks *)

Module ArtworkTable.

Definition ROWS_PER_PAGE : Z := 12.

(** [Math.floor((event.first ?? 0) / ROWS_PER_PAGE)], handed to
    [onPageChange]. *)
Definition handlePageChange (first : option Z) (currentPage : Z) : Z :=
  let newPage := default 0 first `div` ROWS_PER_PAGE in
  ArtworkDataHook.onPageChange newPage currentPage.

(** The action that the bulk form submits, if any. *)
Definition handleBulkSelectSubmit (bulkSelectValue : option Z)
  : option SelectionAction :=
  match bulkSelectValue with
  | Some value => if decide (value >= 0) then Some (onBulkSelect value) else None
  | None => None
  end.

(** The toggles that a change of the selection of the table dispatches, in
    page order. *)
Definition handleSelectionChange (state : SelectionState)
    (artworks : list Artwork.t) (currentPage : Z)
    (newSelection : list Artwork.t) : list SelectionAction :=
  let currentSelection :=
    getSelectedRowsOnPage state ROWS_PER_PAGE artworks currentPage in
  let currentIds : gset string := list_to_set (Artwork.id <$> currentSelection) in
  let newIds : gset string := list_to_set (Artwork.id <$> newSelection) in
  omap (λ dispatched, dispatched)
    (imap (λ localIndex artwork,
             let absoluteIndex :=
               currentPage * ROWS_PER_PAGE + Z.of_nat localIndex in
             let wasSelected := bool_decide (Artwork.id artwork ∈ currentIds) in
             let isNowSelected := bool_decide (Artwork.id artwork ∈ newIds) in
             if negb (eqb wasSelected isNowSelected)
             then Some (onRowSelect (Artwork.id artwork) absoluteIndex)
             else None)
          artworks).

Definition handleHeaderCheckboxChange (state : SelectionState)
    (artworks : list Artwork.t) (currentPage : Z) : SelectionAction :=
  onSelectAllCurrentPage state ROWS_PER_PAGE artworks currentPage.

End ArtworkTable.

(** * Notions used by the statements

    Predicates over states and loops, the restricted notion of reachability,
    and the concrete states that the statements below refer to. *)

(** The query as a function of the overrides and of the base-mode default
    alone. *)
Definition selectedWith (base : bool) (ov : SelectionOverrides) (id : string)
    (index : Z) : bool :=
  if decide (id ∈ excludedIds ov) then false
  else if decide (id ∈ includedIds ov) then true
  else if decide (index ∈ excludedIndices ov) then false
  else if decide (index ∈ includedIndices ov) then true
  else base.

(** The overrides that TOGGLE_ROW leaves, as a function of the two tests it
    makes. *)
Definition toggleOverrides (selected base : bool) (ov : SelectionOverrides)
    (id : string) (index : Z) : SelectionOverrides :=
  if selected then
    {| includedIds := includedIds ov ∖ {[id]};
       excludedIds := if base then {[id]} ∪ excludedIds ov else excludedIds ov;
       includedIndices := includedIndices ov ∖ {[index]};
       excludedIndices := if base then {[index]} ∪ excludedIndices ov
                          else excludedIndices ov |}
  else
    {| includedIds := if base then includedIds ov else {[id]} ∪ includedIds ov;
       excludedIds := excludedIds ov ∖ {[id]};
       includedIndices := if base then includedIndices ov
                          else {[index]} ∪ includedIndices ov;
       excludedIndices := excludedIndices ov ∖ {[index]} |}.

(** The overrides of one record are canonical when they are what a command
    on that record leaves: the id-keyed and index-keyed sets hold the record
    together, an included record is one the base mode does not select, and an
    excluded record is one the base mode selects. *)
Definition canonicalAt (state : SelectionState) (id : string) (index : Z)
  : Prop :=
  let ov := overrides state in
  (id ∈ includedIds ov ↔ index ∈ includedIndices ov)
  ∧ (id ∈ excludedIds ov ↔ index ∈ excludedIndices ov)
  ∧ (id ∈ includedIds ov → wouldBaseModeSelect state index = false)
  ∧ (id ∈ excludedIds ov → wouldBaseModeSelect state index = true).

(** A NONE state is pristine: no override, and a range count of 0. *)
Definition pristineNone (state : SelectionState) : Prop :=
  mode state = NONE →
  includedIds (overrides state) = ∅ ∧ excludedIds (overrides state) = ∅
  ∧ includedIndices (overrides state) = ∅
  ∧ excludedIndices (overrides state) = ∅
  ∧ rangeCount state = 0.

(** The overrides and caches of a loop agree when no id and no index is both
    included and excluded, and when, for every pair that the identity cache
    records in both directions, the id-keyed and the index-keyed overrides do
    not contradict each other. *)
Definition loopAgrees (acc : PageLoop) : Prop :=
  let ov := newOverrides acc in
  (∀ id, ¬ (id ∈ includedIds ov ∧ id ∈ excludedIds ov))
  ∧ (∀ index, ¬ (index ∈ includedIndices ov ∧ index ∈ excludedIndices ov))
  ∧ (∀ id index,
       newIdToIndexCache acc !! id = Some index →
       newIndexToIdCache acc !! index = Some id →
       ¬ (id ∈ includedIds ov ∧ index ∈ excludedIndices ov)
       ∧ ¬ (id ∈ excludedIds ov ∧ index ∈ includedIndices ov)).

(** Under NONE and EXPLICIT nothing is excluded, and a pair recorded in both
    directions is included by id exactly when it is included by index. *)
Definition loopIncludesOnly (acc : PageLoop) : Prop :=
  let ov := newOverrides acc in
  excludedIds ov = ∅ ∧ excludedIndices ov = ∅
  ∧ (∀ id index,
       newIdToIndexCache acc !! id = Some index →
       newIndexToIdCache acc !! index = Some id →
       (id ∈ includedIds ov ↔ index ∈ includedIndices ov)).

(** Under ALL nothing is included, and a pair recorded in both directions is
    excluded by id exactly when it is excluded by index. *)
Definition loopExcludesOnly (acc : PageLoop) : Prop :=
  let ov := newOverrides acc in
  includedIds ov = ∅ ∧ includedIndices ov = ∅
  ∧ (∀ id index,
       newIdToIndexCache acc !! id = Some index →
       newIndexToIdCache acc !! index = Some id →
       (id ∈ excludedIds ov ↔ index ∈ excludedIndices ov)).

(** What the descriptor relies on in each mode that emits one kind of
    override only. *)
Definition descriptorInvariant (state : SelectionState) : Prop :=
  (mode state = NONE ∨ mode state = EXPLICIT →
   loopIncludesOnly (startLoop state))
  ∧ (mode state = ALL → loopExcludesOnly (startLoop state)).

(** The rows a loop has recorded and included lie inside a collection of
    [total] records, and every included id has a known index. *)
Definition loopWithin (total : Z) (acc : PageLoop) : Prop :=
  let ov := newOverrides acc in
  (∀ id, id ∈ includedIds ov → is_Some (newIdToIndexCache acc !! id))
  ∧ (∀ id index, newIdToIndexCache acc !! id = Some index →
                 0 ≤ index < total)
  ∧ (∀ index, index ∈ includedIndices ov → 0 ≤ index < total).

(** A row of a collection of [total] records. *)
Definition rowWithin (total : Z) (r : IndexedRow) : Prop :=
  0 ≤ absoluteIndex r < total.

(** A command stays within the collection when its rows have an index
    between 0 and totalRecords, and when it does not lower totalRecords. *)
Definition actionWithin (state : SelectionState) (action : SelectionAction)
  : Prop :=
  match action with
  | TOGGLE_ROW _ index => 0 ≤ index < totalRecords state
  | SELECT_ALL_PAGE rows | DESELECT_ALL_PAGE rows
  | SYNC_PAGE_SELECTION rows _ => Forall (rowWithin (totalRecords state)) rows
  | UPDATE_TOTAL_RECORDS total => totalRecords state ≤ total
  | BULK_SELECT _ | SELECT_ALL | CLEAR_SELECTION => True
  end.

(** The states reached from an initial state whose total is not negative by
    commands that stay within the collection. *)
Inductive reachableWithin : SelectionState → Prop :=
  | within_init total :
      0 ≤ total → reachableWithin (createInitialState total)
  | within_step state action :
      reachableWithin state → actionWithin state action →
      reachableWithin (selectionReducer state action).

(** The invariant of [reachableWithin]. *)
Definition withinInvariant (state : SelectionState) : Prop :=
  0 ≤ totalRecords state ∧ loopWithin (totalRecords state) (startLoop state).

(** The indices that an EXPLICIT count collects lie inside the collection:
    every included index, and the cached index of every included id, is
    between 0 and totalRecords. *)
Definition inclusionsWithin (state : SelectionState) : Prop :=
  let ov := overrides state in
  (∀ index, index ∈ includedIndices ov → 0 ≤ index < totalRecords state)
  ∧ (∀ id index, id ∈ includedIds ov →
                 idToIndexCache state !! id = Some index →
                 0 ≤ index < totalRecords state).

(** Two rows are selected one by one, then the record source lowers the
    total to 30: an EXPLICIT state whose rows still exist. *)
Definition loweredExplicitState : SelectionState :=
  run 1000 [TOGGLE_ROW "a" 0; TOGGLE_ROW "b" 1; UPDATE_TOTAL_RECORDS 30].

(** A row observed at index 2 and excluded there, then met again at index 7;
    another id is then selected at index 7. *)
Definition movedRowState : SelectionState :=
  run 10 [BULK_SELECT 5;
          TOGGLE_ROW "a" 2;
          DESELECT_ALL_PAGE [{| rowId := "a"; absoluteIndex := 7 |}];
          SELECT_ALL_PAGE [{| rowId := "b"; absoluteIndex := 7 |}]].

(** A record selected by its id, then toggled twice at another index. *)
Definition selectedByIdState : SelectionState := run 10 [TOGGLE_ROW "a" 0].

(** Index 0 is selected under id "b", released, then selected under id "c".
    The cache still gives 0 as the index of "b". *)
Definition reusedIndexState : SelectionState :=
  run 10 [TOGGLE_ROW "b" 0; TOGGLE_ROW "b" 0; TOGGLE_ROW "c" 0].

(** Three rows are selected one by one, then the record source reports a
    total of two. *)
Definition shrunkTotalState : SelectionState :=
  run 1000 [TOGGLE_ROW "a" 0; TOGGLE_ROW "b" 1; TOGGLE_ROW "c" 2;
            UPDATE_TOTAL_RECORDS 2].

(** The rows that a command names: the row of a toggle, the rows of a page
    command, none for the other commands. *)
Definition touchedRows (action : SelectionAction) : list IndexedRow :=
  match action with
  | TOGGLE_ROW id index => [{| rowId := id; absoluteIndex := index |}]
  | SELECT_ALL_PAGE rows | DESELECT_ALL_PAGE rows
  | SYNC_PAGE_SELECTION rows _ => rows
  | BULK_SELECT _ | SELECT_ALL | CLEAR_SELECTION | UPDATE_TOTAL_RECORDS _ => []
  end.

(** The commands that work row by row. *)
Definition rowCommand (action : SelectionAction) : Prop :=
  match action with
  | TOGGLE_ROW _ _ | SELECT_ALL_PAGE _ | DESELECT_ALL_PAGE _
  | SYNC_PAGE_SELECTION _ _ => True
  | BULK_SELECT _ | SELECT_ALL | CLEAR_SELECTION | UPDATE_TOTAL_RECORDS _ =>
      False
  end.

(** Every id and every index of an override set is a key of the identity
    cache. *)
Definition loopKnown (acc : PageLoop) : Prop :=
  let ov := newOverrides acc in
  (∀ id, id ∈ includedIds ov ∨ id ∈ excludedIds ov →
         is_Some (newIdToIndexCache acc !! id))
  ∧ (∀ index, index ∈ includedIndices ov ∨ index ∈ excludedIndices ov →
              is_Some (newIndexToIdCache acc !! index)).


(** A stable collection gives every index its id, [idOf index].  A row
    belongs to it when it pairs an index between 0 and the total with the id
    of that index. *)
Definition rowStable (idOf : Z → string) (total : Z) (r : IndexedRow) : Prop :=
  rowId r = idOf (absoluteIndex r) ∧ 0 ≤ absoluteIndex r < total.

(** A command respects the collection when its rows belong to it and when it
    does not lower totalRecords. *)
Definition actionStable (idOf : Z → string) (state : SelectionState)
    (action : SelectionAction) : Prop :=
  match action with
  | TOGGLE_ROW id index =>
      rowStable idOf (totalRecords state)
        {| rowId := id; absoluteIndex := index |}
  | SELECT_ALL_PAGE rows | DESELECT_ALL_PAGE rows
  | SYNC_PAGE_SELECTION rows _ =>
      Forall (rowStable idOf (totalRecords state)) rows
  | UPDATE_TOTAL_RECORDS total => totalRecords state ≤ total
  | BULK_SELECT _ | SELECT_ALL | CLEAR_SELECTION => True
  end.

(** The states reached over a stable collection, from an initial state whose
    total is not negative. *)
Inductive reachableStable (idOf : Z → string) : SelectionState → Prop :=
  | stable_init total :
      0 ≤ total → reachableStable idOf (createInitialState total)
  | stable_step state action :
      reachableStable idOf state → actionStable idOf state action →
      reachableStable idOf (selectionReducer state action).

(** Over a stable collection the id-keyed sets are the images of the
    index-keyed sets, the cache knows the index of every override, an
    included index is one the base mode does not select, an excluded index
    one it selects, and all lie within the collection. *)
Definition loopStable (idOf : Z → string) (base : Z → bool) (total : Z)
    (acc : PageLoop) : Prop :=
  let ov := newOverrides acc in
  (∀ id, id ∈ includedIds ov ↔
         ∃ index, index ∈ includedIndices ov ∧ id = idOf index)
  ∧ (∀ id, id ∈ excludedIds ov ↔
           ∃ index, index ∈ excludedIndices ov ∧ id = idOf index)
  ∧ (∀ index, index ∈ includedIndices ov ∨ index ∈ excludedIndices ov →
              newIdToIndexCache acc !! idOf index = Some index)
  ∧ (∀ index, index ∈ includedIndices ov →
              0 ≤ index < total ∧ base index = false)
  ∧ (∀ index, index ∈ excludedIndices ov →
              0 ≤ index < total ∧ base index = true).

Definition stableInvariant (idOf : Z → string) (state : SelectionState)
  : Prop :=
  0 ≤ totalRecords state
  ∧ (mode state = RANGE → 0 ≤ rangeCount state ≤ totalRecords state)
  ∧ loopStable idOf (wouldBaseModeSelect state) (totalRecords state)
      (startLoop state).

(** The number of records of the collection that the membership query
    selects. *)
Definition numberSelected (idOf : Z → string) (state : SelectionState) : Z :=
  Z.of_nat (length (filter (λ index,
                              checkIsRowSelected state (idOf index) index = true)
                           (seqZ 0 (totalRecords state)))).

(** The indices that the base mode selects: none, the first
    [min rangeCount totalRecords], or all. *)
Definition baseSet (state : SelectionState) : gset Z :=
  list_to_set
    (seqZ 0 match mode state with
            | NONE | EXPLICIT => 0
            | RANGE => Z.min (rangeCount state) (totalRecords state)
            | ALL => totalRecords state
            end).

(** A page of two rows, as [transformArtwork] yields them. *)
Definition exampleData : list ArtworkData.t :=
  [ {| ArtworkData.id := 27992;
       ArtworkData.title := Some "A Sunday on La Grande Jatte";
       ArtworkData.place_of_origin := Some "France";
       ArtworkData.artist_titles := Some ["Georges Seurat"];
       ArtworkData.inscriptions := None;
       ArtworkData.date_start := Some 1884;
       ArtworkData.date_end := Some 1886 |};
    {| ArtworkData.id := 28560;
       ArtworkData.title := Some EmptyString;
       ArtworkData.place_of_origin := None;
       ArtworkData.artist_titles := None;
       ArtworkData.inscriptions := Some "signed";
       ArtworkData.date_start := None;
       ArtworkData.date_end := None |} ].

Definition examplePage : list Artwork.t := transformArtwork <$> exampleData.

(** The groups of HTTP statuses that the [switch] of [fetchArtworks] tells
    apart. *)
Inductive HttpGroup : Set :=
  | BadRequest | NotFound | RateLimited | ServerError | OtherStatus.

Definition httpGroup (st : Z) : HttpGroup :=
  if decide (st = 400) then BadRequest
  else if decide (st = 404) then NotFound
  else if decide (st = 429) then RateLimited
  else if decide (st = 500 ∨ st = 502 ∨ st = 503 ∨ st = 504) then ServerError
  else OtherStatus.

(** The current page after a sequence of paginator events, from the initial
    page 0; each event carries the offset [first] of the page asked for. *)
Definition pageAfter (firsts : list (option Z)) : Z :=
  foldl (λ currentPage first, ArtworkTable.handlePageChange first currentPage)
        0 firsts.

(** * Properties of the selection engine *)

(** ** Scenarios of the specification, by evaluation *)

Example scenario_A :
  let s := run 1000 [SELECT_ALL; TOGGLE_ROW "7" 6] in
  calculateSelectedCount s = 999 ∧ checkIsRowSelected s "7" 6 = false
  ∧ getSelectionDescriptor s =
    {| descMode := ALL; descRangeCount := None; descIncludedIds := None;
       descExcludedIds := Some ["7"]; descExcludedIndices := None |}.
Proof. vm_compute. done. Qed.

Example scenario_C :
  let s := run 1000 [TOGGLE_ROW "a" 0; TOGGLE_ROW "b" 1] in
  mode s = EXPLICIT ∧ calculateSelectedCount s = 2
  ∧ includedIds (overrides s) = {["a"; "b"]}.
Proof. vm_compute. done. Qed.

(** Case analysis on every membership test of the goal. *)
Ltac split_decide :=
  repeat match goal with
         | |- context [decide ?P] => destruct (decide P)
         end.

(** ** The membership query *)

Lemma wouldBaseModeSelect_default state index :
  wouldBaseModeSelect state index =
  match mode state with
  | NONE => false
  | ALL => true
  | RANGE => bool_decide (index < rangeCount state)
  | EXPLICIT => false
  end.
Proof. unfold wouldBaseModeSelect. by destruct (mode state). Qed.

Lemma checkIsRowSelected_with state id index :
  checkIsRowSelected state id index =
  selectedWith (wouldBaseModeSelect state index) (overrides state) id index.
Proof.
  unfold checkIsRowSelected, selectedWith.
  rewrite wouldBaseModeSelect_default. by repeat case_decide.
Qed.

(** C1. The membership query consults excludedIds (false), then includedIds
    (true), then excludedIndices (false), then includedIndices (true), and
    otherwise answers with the base-mode default: false for NONE, true for
    ALL, [index < rangeCount] for RANGE, false for EXPLICIT. *)
Theorem checkIsRowSelected_precedence (state : SelectionState) (id : string)
    (index : Z) :
  let ov := overrides state in
  (id ∈ excludedIds ov → checkIsRowSelected state id index = false)
  ∧ (id ∉ excludedIds ov → id ∈ includedIds ov →
     checkIsRowSelected state id index = true)
  ∧ (id ∉ excludedIds ov → id ∉ includedIds ov →
     index ∈ excludedIndices ov →
     checkIsRowSelected state id index = false)
  ∧ (id ∉ excludedIds ov → id ∉ includedIds ov →
     index ∉ excludedIndices ov → index ∈ includedIndices ov →
     checkIsRowSelected state id index = true)
  ∧ (id ∉ excludedIds ov → id ∉ includedIds ov →
     index ∉ excludedIndices ov → index ∉ includedIndices ov →
     checkIsRowSelected state id index =
     match mode state with
     | NONE => false
     | ALL => true
     | RANGE => bool_decide (index < rangeCount state)
     | EXPLICIT => false
     end).
Proof.
  cbv zeta. unfold checkIsRowSelected.
  repeat split; intros; repeat case_decide; done.
Qed.

(** ** TOGGLE_ROW *)

(** The two branches of TOGGLE_ROW are the bodies of the page loops, run on
    the single row of the command. *)
Lemma toggle_as_row state id index :
  let r := {| rowId := id; absoluteIndex := index |} in
  selectionReducer state (TOGGLE_ROW id index) =
  if checkIsRowSelected state id index
  then withLoop state (mode state) (deselectRow state (startLoop state) r)
  else withLoop state (if bool_decide (mode state = NONE) then EXPLICIT
                       else mode state)
                (selectRow state (startLoop state) r).
Proof.
  cbv zeta. unfold selectionReducer, withLoop, deselectRow, selectRow.
  destruct (checkIsRowSelected state id index); simpl;
    rewrite ?andb_false_r, ?andb_true_r; done.
Qed.

Lemma toggle_base state id index j :
  wouldBaseModeSelect (selectionReducer state (TOGGLE_ROW id index)) j =
  wouldBaseModeSelect state j.
Proof.
  unfold wouldBaseModeSelect. simpl.
  destruct (mode state), (checkIsRowSelected state id index); done.
Qed.

Lemma toggle_flips state id index :
  checkIsRowSelected (selectionReducer state (TOGGLE_ROW id index)) id index =
  negb (checkIsRowSelected state id index).
Proof.
  rewrite (checkIsRowSelected_with (selectionReducer _ _)), toggle_base.
  rewrite (checkIsRowSelected_with state).
  unfold selectedWith. simpl. rewrite (checkIsRowSelected_with state).
  unfold selectedWith.
  destruct (wouldBaseModeSelect state index);
    repeat (split_decide; simpl); try done; set_solver.
Qed.

(** C2. TOGGLE_ROW flips the effective selection of the record.  It removes
    the record from the two override sets of the polarity it leaves and adds
    it to the two override sets of the polarity it takes only when the
    base-mode default disagrees with the new value; it records (id, index) in
    both directions of the identity cache whatever the branch; the mode
    becomes EXPLICIT when it was NONE and the record becomes selected, and is
    unchanged otherwise; nothing else of the state changes. *)
Theorem toggle_row_effect (state : SelectionState) (id : string) (index : Z) :
  let state' := selectionReducer state (TOGGLE_ROW id index) in
  let selected := checkIsRowSelected state id index in
  let base := wouldBaseModeSelect state index in
  let ov := overrides state in
  let ov' := overrides state' in
  checkIsRowSelected state' id index = negb selected
  ∧ (selected = true →
       includedIds ov' = includedIds ov ∖ {[id]}
     ∧ includedIndices ov' = includedIndices ov ∖ {[index]}
     ∧ excludedIds ov' =
         (if base then {[id]} ∪ excludedIds ov else excludedIds ov)
     ∧ excludedIndices ov' =
         (if base then {[index]} ∪ excludedIndices ov else excludedIndices ov))
  ∧ (selected = false →
       excludedIds ov' = excludedIds ov ∖ {[id]}
     ∧ excludedIndices ov' = excludedIndices ov ∖ {[index]}
     ∧ includedIds ov' =
         (if base then includedIds ov else {[id]} ∪ includedIds ov)
     ∧ includedIndices ov' =
         (if base then includedIndices ov else {[index]} ∪ includedIndices ov))
  ∧ indexToIdCache state' = <[index := id]> (indexToIdCache state)
  ∧ idToIndexCache state' = <[id := index]> (idToIndexCache state)
  ∧ indexToIdCache state' !! index = Some id
  ∧ idToIndexCache state' !! id = Some index
  ∧ mode state' =
      (if decide (mode state = NONE ∧ selected = false) then EXPLICIT
       else mode state)
  ∧ rangeCount state' = rangeCount state
  ∧ totalRecords state' = totalRecords state.
Proof.
  cbv zeta. split; [apply toggle_flips|].
  simpl. rewrite !lookup_insert_eq.
  destruct (checkIsRowSelected state id index) eqn:Hsel,
           (wouldBaseModeSelect state index) eqn:Hbase; simpl;
    (repeat split; try done; try (intros ?; done);
     try (intros _; repeat split; done);
     destruct (mode state); simpl; repeat case_decide; naive_solver).
Qed.

(** ** Counting *)

Lemma addKnownIndices_empty cache acc : addKnownIndices cache ∅ acc = acc.
Proof. unfold addKnownIndices. by rewrite set_fold_empty. Qed.

Lemma countUnknownIds_empty cache : countUnknownIds cache ∅ = 0.
Proof. unfold countUnknownIds. by rewrite set_fold_empty. Qed.

Lemma countIndicesOutsideBase_empty state n :
  countIndicesOutsideBase state ∅ n = n.
Proof. unfold countIndicesOutsideBase. by rewrite set_fold_empty. Qed.

Lemma countIdsOutsideBase_empty state n : countIdsOutsideBase state ∅ n = n.
Proof. unfold countIdsOutsideBase. by rewrite set_fold_empty. Qed.

(** With no override at all, the count is the base count, floored at 0. *)
Lemma count_fresh state :
  overrides state = createFreshOverrides →
  calculateSelectedCount state =
  match mode state with
  | NONE | EXPLICIT => 0
  | RANGE => Z.max 0 (Z.min (rangeCount state) (totalRecords state))
  | ALL => Z.max 0 (totalRecords state)
  end.
Proof.
  intros Hov. unfold calculateSelectedCount. rewrite Hov. simpl.
  rewrite !addKnownIndices_empty, !countUnknownIds_empty,
    countIndicesOutsideBase_empty, countIdsOutsideBase_empty, size_empty.
  destruct (mode state); simpl; f_equal; lia.
Qed.

(** ** BULK_SELECT *)

(** C6. BULK_SELECT accepts every integer count and clamps it instead of
    rejecting it.  A clamped count of 0 gives mode NONE with rangeCount 0 and
    empty overrides; any other clamped count gives mode RANGE with that
    rangeCount and empty overrides; totalRecords and the identity caches are
    kept.  When totalRecords is not negative, as a record count is, the
    clamped count lies in [0, totalRecords]: a negative count becomes 0, a
    count above totalRecords becomes totalRecords, any other count is kept;
    in particular a count above totalRecords makes the selected count equal
    totalRecords. *)
Theorem bulk_select_clamps (state : SelectionState) (count : Z) :
  let clamped := Z.min (Z.max 0 count) (totalRecords state) in
  let state' := selectionReducer state (BULK_SELECT count) in
  (clamped = 0 →
   mode state' = NONE ∧ rangeCount state' = 0
   ∧ overrides state' = createFreshOverrides)
  ∧ (clamped ≠ 0 →
     mode state' = RANGE ∧ rangeCount state' = clamped
     ∧ overrides state' = createFreshOverrides)
  ∧ totalRecords state' = totalRecords state
  ∧ indexToIdCache state' = indexToIdCache state
  ∧ idToIndexCache state' = idToIndexCache state
  ∧ (0 ≤ totalRecords state →
     0 ≤ clamped ≤ totalRecords state
     ∧ (count < 0 → clamped = 0)
     ∧ (0 ≤ count ≤ totalRecords state → clamped = count)
     ∧ (totalRecords state < count → clamped = totalRecords state)
     ∧ (totalRecords state < count →
        calculateSelectedCount state' = totalRecords state)).
Proof.
  cbv zeta. unfold selectionReducer.
  destruct (decide (Z.min (Z.max 0 count) (totalRecords state) = 0))
    as [Hz|Hnz].
  - repeat split; try done; try lia.
    intros Hgt. rewrite count_fresh by done. simpl. lia.
  - repeat split; try done; try lia.
    intros Hgt. rewrite count_fresh by done. simpl. lia.
Qed.

Lemma bulk_select_clamps_witness :
  let state := createInitialState 1000 in
  0 ≤ totalRecords state
  ∧ mode (selectionReducer state (BULK_SELECT 5000)) = RANGE
  ∧ calculateSelectedCount (selectionReducer state (BULK_SELECT 5000)) = 1000.
Proof.
  pose proof (bulk_select_clamps (createInitialState 1000) 5000)
    as (_ & Hrange & _ & _ & _ & Hclamp).
  split; [simpl; lia|]. split.
  - apply Hrange. simpl. lia.
  - apply Hclamp; simpl; lia.
Defined.

(** ** UPDATE_TOTAL_RECORDS *)

(** C8. UPDATE_TOTAL_RECORDS sets totalRecords to the new total and, exactly
    when the mode is RANGE, replaces rangeCount by its minimum with the new
    total; the mode, the four override sets and the two identity caches are
    unchanged.  Example: on any state whose totalRecords is 1000,
    BULK_SELECT(50) followed by UPDATE_TOTAL_RECORDS(30) leaves mode RANGE
    with rangeCount 30 and a selected count of 30. *)
Theorem update_total_frame (state : SelectionState) (newTotal : Z) :
  let state' := selectionReducer state (UPDATE_TOTAL_RECORDS newTotal) in
  totalRecords state' = newTotal
  ∧ rangeCount state' =
      (if decide (mode state = RANGE)
       then Z.min (rangeCount state) newTotal else rangeCount state)
  ∧ mode state' = mode state
  ∧ overrides state' = overrides state
  ∧ indexToIdCache state' = indexToIdCache state
  ∧ idToIndexCache state' = idToIndexCache state
  ∧ (let state1000 :=
       {| mode := mode state; rangeCount := rangeCount state;
          totalRecords := 1000; overrides := overrides state;
          indexToIdCache := indexToIdCache state;
          idToIndexCache := idToIndexCache state |} in
     let bulk := selectionReducer state1000 (BULK_SELECT 50) in
     let shrunk := selectionReducer bulk (UPDATE_TOTAL_RECORDS 30) in
     calculateSelectedCount bulk = 50
     ∧ mode shrunk = RANGE ∧ rangeCount shrunk = 30
     ∧ calculateSelectedCount shrunk = 30).
Proof.
  cbv zeta.
  split; [done|]. split; [simpl; by destruct (mode state)|].
  do 4 (split; [done|]).
  repeat split; try done; by rewrite count_fresh.
Qed.

(** ** Page loops *)

Lemma foldl_preserves {A B} (P : A → Prop) (f : A → B → A) (l : list B) a :
  P a → (∀ a b, P a → P (f a b)) → P (foldl f a l).
Proof.
  intros Ha Hstep. revert a Ha.
  induction l as [|b l IH]; intros a Ha; simpl; [done|].
  apply IH, Hstep, Ha.
Qed.

Lemma wouldBaseModeSelect_unselecting state index :
  mode state = NONE ∨ mode state = EXPLICIT →
  wouldBaseModeSelect state index = false.
Proof. unfold wouldBaseModeSelect. by intros [-> | ->]. Qed.

Lemma wouldBaseModeSelect_all state index :
  mode state = ALL → wouldBaseModeSelect state index = true.
Proof. unfold wouldBaseModeSelect. by intros ->. Qed.

Lemma overrides_eq ov1 ov2 :
  includedIds ov1 = includedIds ov2 →
  excludedIds ov1 = excludedIds ov2 →
  includedIndices ov1 = includedIndices ov2 →
  excludedIndices ov1 = excludedIndices ov2 →
  ov1 = ov2.
Proof. destruct ov1, ov2; simpl; congruence. Qed.

Lemma deselectRow_fresh state acc r :
  mode state = NONE ∨ mode state = EXPLICIT →
  newOverrides acc = createFreshOverrides →
  newOverrides (deselectRow state acc r) = createFreshOverrides.
Proof.
  intros Hmode Hov. unfold deselectRow.
  rewrite wouldBaseModeSelect_unselecting, Hov by done. simpl.
  apply overrides_eq; simpl; set_solver.
Qed.

(** ** NONE carries no override *)

Lemma pristineNone_step state action :
  pristineNone state → pristineNone (selectionReducer state action).
Proof.
  unfold pristineNone. intros Hinv.
  destruct action as [id index|rows|rows|count| | |total|rows selected].
  - (* TOGGLE_ROW: a NONE state selects nothing, so the mode leaves NONE *)
    rewrite toggle_as_row. cbv zeta.
    rewrite checkIsRowSelected_with.
    destruct (decide (mode state = NONE)) as [Hnone|Hother].
    + destruct (Hinv Hnone) as (Hii & Hei & Hix & Hex & _).
      unfold selectedWith. rewrite Hii, Hei, Hix, Hex.
      rewrite wouldBaseModeSelect_unselecting by auto.
      rewrite !decide_False by set_solver.
      simpl. rewrite bool_decide_eq_true_2 by done. done.
    + destruct (selectedWith _ _ _ _); simpl;
        [done | rewrite bool_decide_eq_false_2 by done; done].
  - simpl. case_bool_decide; done.
  - simpl. intros Hnone. destruct (Hinv Hnone) as (Hii & Hei & Hix & Hex & Hrc).
    assert (newOverrides (foldl (deselectRow state) (startLoop state) rows)
            = createFreshOverrides) as ->.
    { apply (foldl_preserves (λ acc, newOverrides acc = createFreshOverrides)).
      - simpl. apply overrides_eq; done.
      - intros acc r. apply deselectRow_fresh. auto. }
    done.
  - simpl. case_decide; simpl; [done|]. intros; discriminate.
  - simpl. intros; discriminate.
  - done.
  - simpl. intros Hnone. destruct (Hinv Hnone) as (? & ? & ? & ? & Hrc).
    rewrite bool_decide_eq_false_2 by congruence. done.
  - simpl. destruct selected.
    + rewrite andb_true_r. case_bool_decide; done.
    + rewrite andb_false_r. intros Hnone.
      destruct (Hinv Hnone) as (Hii & Hei & Hix & Hex & Hrc).
      assert (newOverrides (foldl (λ acc r, deselectRow state acc r)
                              (startLoop state) rows)
              = createFreshOverrides) as ->.
      { apply (foldl_preserves (λ acc, newOverrides acc = createFreshOverrides)).
        - simpl. apply overrides_eq; done.
        - intros acc r. apply deselectRow_fresh. auto. }
      done.
Qed.

Lemma reachable_pristineNone state : reachable state → pristineNone state.
Proof.
  induction 1 as [total|state action _ IH].
  - intros _. done.
  - by apply pristineNone_step.
Qed.

(** C10. In every state reachable from the initial state through the
    commands of the engine, mode NONE implies that the four override sets
    are empty and that rangeCount is 0. *)
Theorem none_is_pristine (state : SelectionState) :
  reachable state →
  mode state = NONE →
  includedIds (overrides state) = ∅ ∧ excludedIds (overrides state) = ∅
  ∧ includedIndices (overrides state) = ∅
  ∧ excludedIndices (overrides state) = ∅
  ∧ rangeCount state = 0.
Proof.
  intros Hreach.
  induction Hreach as [total|state action _ IH].
  - intros _. done.
  - exact (pristineNone_step state action IH).
Qed.

Lemma reachable_run total actions : reachable (run total actions).
Proof.
  unfold run. apply foldl_preserves.
  - apply reachable_init.
  - intros s a Hs. by apply reachable_step.
Qed.

Lemma none_is_pristine_witness :
  let state := run 1000 [TOGGLE_ROW "a" 0; BULK_SELECT 0;
                         DESELECT_ALL_PAGE [{| rowId := "a";
                                               absoluteIndex := 0 |}]] in
  reachable state ∧ mode state = NONE
  ∧ includedIds (overrides state) = ∅ ∧ rangeCount state = 0.
Proof.
  pose proof (none_is_pristine
    (run 1000 [TOGGLE_ROW "a" 0; BULK_SELECT 0;
               DESELECT_ALL_PAGE [{| rowId := "a"; absoluteIndex := 0 |}]])
    (reachable_run _ _) eq_refl) as (Hii & _ & _ & _ & Hrc).
  split; [apply reachable_run|]. split; [reflexivity|].
  split; [exact Hii | exact Hrc].
Defined.

(** ** Invariant I1: included and excluded overrides never overlap *)

Lemma loopAgrees_fresh c1 c2 :
  loopAgrees {| newOverrides := createFreshOverrides;
                newIndexToIdCache := c1; newIdToIndexCache := c2 |}.
Proof. unfold loopAgrees. simpl. set_solver. Qed.

(** Where the two caches stand after a row has been recorded. *)
Lemma recorded_pair (c1 : gmap Z string) (c2 : gmap string Z) rid rindex
    id index :
  <[rid := rindex]> c2 !! id = Some index →
  <[rindex := rid]> c1 !! index = Some id →
  (id = rid ∧ index = rindex)
  ∨ (id ≠ rid ∧ index ≠ rindex
     ∧ c2 !! id = Some index ∧ c1 !! index = Some id).
Proof.
  intros H2 H1.
  destruct (decide (id = rid)) as [->|Hid].
  - rewrite lookup_insert_eq in H2. left. split; congruence.
  - rewrite lookup_insert_ne in H2 by done.
    destruct (decide (index = rindex)) as [->|Hindex].
    + rewrite lookup_insert_eq in H1. congruence.
    + rewrite lookup_insert_ne in H1 by done. right. done.
Qed.

Lemma selectRow_agrees state acc r :
  loopAgrees acc → loopAgrees (selectRow state acc r).
Proof.
  unfold loopAgrees, selectRow. intros (Hid & Hindex & Hpair).
  destruct (wouldBaseModeSelect state (absoluteIndex r)); simpl;
    (split; [set_solver|]; split; [set_solver|]);
    intros id index H2 H1;
    destruct (recorded_pair _ _ _ _ _ _ H2 H1)
      as [[-> ->]|(? & ? & H2' & H1')];
    try specialize (Hpair _ _ H2' H1'); set_solver.
Qed.

Lemma deselectRow_agrees state acc r :
  loopAgrees acc → loopAgrees (deselectRow state acc r).
Proof.
  unfold loopAgrees, deselectRow. intros (Hid & Hindex & Hpair).
  destruct (wouldBaseModeSelect state (absoluteIndex r)); simpl;
    (split; [set_solver|]; split; [set_solver|]);
    intros id index H2 H1;
    destruct (recorded_pair _ _ _ _ _ _ H2 H1)
      as [[-> ->]|(? & ? & H2' & H1')];
    try specialize (Hpair _ _ H2' H1'); set_solver.
Qed.

Lemma loopAgrees_step state action :
  loopAgrees (startLoop state) →
  loopAgrees (startLoop (selectionReducer state action)).
Proof.
  intros Hinv.
  destruct action as [id index|rows|rows|count| | |total|rows selected].
  - rewrite toggle_as_row. cbv zeta.
    destruct (checkIsRowSelected state id index).
    + by apply (deselectRow_agrees state (startLoop state)).
    + by apply (selectRow_agrees state (startLoop state)).
  - apply (foldl_preserves loopAgrees); [done|].
    intros acc r. apply selectRow_agrees.
  - apply (foldl_preserves loopAgrees); [done|].
    intros acc r. apply deselectRow_agrees.
  - simpl. case_decide; apply loopAgrees_fresh.
  - apply loopAgrees_fresh.
  - apply loopAgrees_fresh.
  - done.
  - apply (foldl_preserves loopAgrees); [done|].
    intros acc r. destruct selected;
      [apply selectRow_agrees | apply deselectRow_agrees].
Qed.

(** C4, as stated, fails.  In [movedRowState], which is reachable, the
    identity cache gives 7 as the known index of id "a", the id "a" is
    excluded and the index 7 is included. *)
Lemma moved_row_overrides_disagree :
  reachable movedRowState
  ∧ idToIndexCache movedRowState !! "a" = Some 7
  ∧ "a" ∈ excludedIds (overrides movedRowState)
  ∧ 7 ∈ includedIndices (overrides movedRowState).
Proof.
  split; [apply reachable_run|].
  split; [by vm_compute|].
  assert (excludedIds (overrides movedRowState) = {["a"]}) as ->
    by (by vm_compute).
  assert (includedIndices (overrides movedRowState) = {[7]}) as ->
    by (by vm_compute).
  set_solver.
Qed.

(** An entry of the index-to-id direction alone does not suffice either: id
    "a" is included at index 7, then met at index 2 and excluded there; the
    cache still gives "a" as the id of index 7. *)
Example stale_index_entry_disagrees :
  let s := run 10 [BULK_SELECT 5; TOGGLE_ROW "a" 7; TOGGLE_ROW "a" 2] in
  indexToIdCache s !! 7 = Some "a"
  ∧ excludedIds (overrides s) = {["a"]}
  ∧ includedIndices (overrides s) = {[7]}.
Proof. by vm_compute. Qed.

(** The same with toggles alone, when the total shrinks and grows again
    between them: the range stays clamped at 3, so index 4, excluded under
    id "a", is included under id "b". *)
Example stale_pair_after_total_change :
  let s := run 10 [BULK_SELECT 5; TOGGLE_ROW "a" 4; UPDATE_TOTAL_RECORDS 3;
                   UPDATE_TOTAL_RECORDS 10; TOGGLE_ROW "b" 4] in
  idToIndexCache s !! "a" = Some 4
  ∧ excludedIds (overrides s) = {["a"]}
  ∧ includedIndices (overrides s) = {[4]}.
Proof. by vm_compute. Qed.

(** C4, amended.  In every reachable state no id is in both includedIds and
    excludedIds, no index is in both includedIndices and excludedIndices,
    and for every pair (id, index) that the identity cache records in both
    directions, the id is not included while the index is excluded, nor
    excluded while the index is included. *)
Theorem included_excluded_never_overlap (state : SelectionState) :
  reachable state →
  let ov := overrides state in
  (∀ id, ¬ (id ∈ includedIds ov ∧ id ∈ excludedIds ov))
  ∧ (∀ index, ¬ (index ∈ includedIndices ov ∧ index ∈ excludedIndices ov))
  ∧ (∀ id index,
       idToIndexCache state !! id = Some index →
       indexToIdCache state !! index = Some id →
       ¬ (id ∈ includedIds ov ∧ index ∈ excludedIndices ov)
       ∧ ¬ (id ∈ excludedIds ov ∧ index ∈ includedIndices ov)).
Proof.
  intros Hreach. change (loopAgrees (startLoop state)).
  induction Hreach as [total|state action _ IH].
  - apply loopAgrees_fresh.
  - by apply loopAgrees_step.
Qed.

Lemma included_excluded_never_overlap_witness :
  reachable movedRowState
  ∧ ¬ ("b" ∈ includedIds (overrides movedRowState)
       ∧ 7 ∈ excludedIndices (overrides movedRowState)).
Proof.
  split; [apply reachable_run|].
  refine (proj1 (proj2 (proj2 (included_excluded_never_overlap movedRowState
            (reachable_run _ _))) "b" 7 _ _)); by vm_compute.
Defined.

(** ** Toggling twice *)

Lemma toggle_overrides state id index :
  overrides (selectionReducer state (TOGGLE_ROW id index)) =
  toggleOverrides (checkIsRowSelected state id index)
                  (wouldBaseModeSelect state index) (overrides state) id index.
Proof.
  simpl. unfold toggleOverrides.
  by destruct (checkIsRowSelected state id index),
              (wouldBaseModeSelect state index).
Qed.

Lemma overrides_eq_iff ov1 ov2 :
  ov1 = ov2 ↔
  includedIds ov1 = includedIds ov2 ∧ excludedIds ov1 = excludedIds ov2
  ∧ includedIndices ov1 = includedIndices ov2
  ∧ excludedIndices ov1 = excludedIndices ov2.
Proof.
  split; [by intros ->|]. intros (? & ? & ? & ?). by apply overrides_eq.
Qed.

Lemma add_after_delete `{Countable A} (x : A) (X : gset A) :
  x ∈ X → {[x]} ∪ X ∖ {[x]} = X.
Proof.
  intros Hx. apply set_eq. intros y.
  destruct (decide (y = x)) as [->|Hne]; set_solver.
Qed.

Lemma double_toggle_overrides (base : bool) ov id index :
  let selected := selectedWith base ov id index in
  toggleOverrides (negb selected) base
    (toggleOverrides selected base ov id index) id index = ov
  ↔ (id ∈ includedIds ov ↔ index ∈ includedIndices ov)
    ∧ (id ∈ excludedIds ov ↔ index ∈ excludedIndices ov)
    ∧ (id ∈ includedIds ov → base = false)
    ∧ (id ∈ excludedIds ov → base = true).
Proof.
  cbv zeta. rewrite overrides_eq_iff.
  unfold selectedWith, toggleOverrides.
  destruct base; split_decide; simpl; (split; [intros (?&?&?&?)|intros (?&?&?&?)]);
    repeat split; try done; try (apply add_after_delete); set_solver.
Qed.

(** C5, as stated, fails.  [selectedByIdState] is reachable; toggling
    ("a", 1) twice gives back the value of the membership query, but index 1
    has entered includedIndices. *)
Lemma double_toggle_leaves_index :
  let twice :=
    selectionReducer (selectionReducer selectedByIdState (TOGGLE_ROW "a" 1))
                     (TOGGLE_ROW "a" 1) in
  reachable selectedByIdState
  ∧ includedIndices (overrides selectedByIdState) = {[0]}
  ∧ includedIndices (overrides twice) = {[0; 1]}
  ∧ includedIndices (overrides twice)
    ≠ includedIndices (overrides selectedByIdState).
Proof.
  cbv zeta. split; [apply reachable_run|].
  assert (includedIndices (overrides selectedByIdState) = {[0]}) as ->
    by (by vm_compute).
  assert (includedIndices (overrides (selectionReducer
            (selectionReducer selectedByIdState (TOGGLE_ROW "a" 1))
            (TOGGLE_ROW "a" 1))) = {[0; 1]}) as -> by (by vm_compute).
  repeat split. intros Heq.
  assert (1 ∈ ({[0]} : gset Z)) as Hin by (rewrite <- Heq; set_solver).
  set_solver.
Qed.

(** On a record whose overrides are canonical the two toggles cancel. *)
Example double_toggle_canonical :
  let twice :=
    selectionReducer (selectionReducer selectedByIdState (TOGGLE_ROW "a" 0))
                     (TOGGLE_ROW "a" 0) in
  overrides twice = overrides selectedByIdState.
Proof. by vm_compute. Qed.

(** C5, amended.  In every state, TOGGLE_ROW(id, index) twice in a row gives
    back the value of the membership query for (id, index); it gives back the
    four override sets exactly when the overrides of the record are canonical
    before the first toggle. *)
Theorem double_toggle_restores (state : SelectionState) (id : string)
    (index : Z) :
  let twice :=
    selectionReducer (selectionReducer state (TOGGLE_ROW id index))
                     (TOGGLE_ROW id index) in
  checkIsRowSelected twice id index = checkIsRowSelected state id index
  ∧ (overrides twice = overrides state ↔ canonicalAt state id index).
Proof.
  cbv zeta. split.
  - rewrite !toggle_flips. apply negb_involutive.
  - rewrite toggle_overrides, toggle_flips, toggle_base, toggle_overrides.
    rewrite checkIsRowSelected_with. apply double_toggle_overrides.
Qed.

(** ** The descriptor *)

Lemma inArray_nonEmptyArray `{Countable A} (x : A) (X : gset A) :
  inArray x (nonEmptyArray X) = bool_decide (x ∈ X).
Proof.
  unfold nonEmptyArray, inArray. case_decide as Hsize.
  - apply bool_decide_ext, elem_of_elements.
  - assert (X = ∅) as -> by (apply leibniz_equiv, size_empty_iff; lia).
    symmetry. apply bool_decide_eq_false_2. set_solver.
Qed.

Lemma inArray_elements `{Countable A} (x : A) (X : gset A) :
  inArray x (Some (elements X)) = bool_decide (x ∈ X).
Proof. apply bool_decide_ext, elem_of_elements. Qed.

(** What the reconstruction reads from the descriptor of a state. *)
Lemma descriptorSelects_projection state id index :
  descriptorSelects (getSelectionDescriptor state) id index =
  match mode state with
  | NONE => false
  | EXPLICIT => bool_decide (id ∈ includedIds (overrides state))
  | RANGE =>
      if bool_decide (id ∈ excludedIds (overrides state)) then false
      else if bool_decide (index ∈ excludedIndices (overrides state))
           then false
           else bool_decide (index < rangeCount state)
  | ALL => negb (bool_decide (id ∈ excludedIds (overrides state)))
  end.
Proof.
  unfold descriptorSelects, getSelectionDescriptor.
  destruct (mode state);
    cbn [descMode descRangeCount descIncludedIds descExcludedIds
         descExcludedIndices];
    rewrite ?inArray_nonEmptyArray, ?inArray_elements; cbn [inArray];
    try done.
  by destruct (bool_decide (id ∈ includedIds (overrides state))).
Qed.

Lemma loopIncludesOnly_fresh c1 c2 :
  loopIncludesOnly {| newOverrides := createFreshOverrides;
                      newIndexToIdCache := c1; newIdToIndexCache := c2 |}.
Proof. unfold loopIncludesOnly. simpl. set_solver. Qed.

Lemma loopExcludesOnly_fresh c1 c2 :
  loopExcludesOnly {| newOverrides := createFreshOverrides;
                      newIndexToIdCache := c1; newIdToIndexCache := c2 |}.
Proof. unfold loopExcludesOnly. simpl. set_solver. Qed.

Lemma row_includesOnly state acc r (selected : bool) :
  mode state = NONE ∨ mode state = EXPLICIT →
  loopIncludesOnly acc →
  loopIncludesOnly (if selected then selectRow state acc r
                    else deselectRow state acc r).
Proof.
  intros Hmode (Hei & Hex & Hpair).
  unfold loopIncludesOnly, selectRow, deselectRow.
  destruct selected; simpl;
    rewrite wouldBaseModeSelect_unselecting by done; simpl;
    rewrite Hei, Hex;
    (split; [set_solver|]; split; [set_solver|]);
    intros id index H2 H1;
    destruct (recorded_pair _ _ _ _ _ _ H2 H1)
      as [[-> ->]|(? & ? & H2' & H1')];
    try specialize (Hpair _ _ H2' H1'); set_solver.
Qed.

Lemma row_excludesOnly state acc r (selected : bool) :
  mode state = ALL →
  loopExcludesOnly acc →
  loopExcludesOnly (if selected then selectRow state acc r
                    else deselectRow state acc r).
Proof.
  intros Hmode (Hii & Hix & Hpair).
  unfold loopExcludesOnly, selectRow, deselectRow.
  destruct selected; simpl;
    rewrite wouldBaseModeSelect_all by done; simpl;
    rewrite Hii, Hix;
    (split; [set_solver|]; split; [set_solver|]);
    intros id index H2 H1;
    destruct (recorded_pair _ _ _ _ _ _ H2 H1)
      as [[-> ->]|(? & ? & H2' & H1')];
    try specialize (Hpair _ _ H2' H1'); set_solver.
Qed.

(** A command that runs a loop over rows keeps the mode, or moves it from
    NONE to EXPLICIT. *)
Lemma descriptorInvariant_withLoop state newMode acc :
  newMode = mode state ∨ (mode state = NONE ∧ newMode = EXPLICIT) →
  (mode state = NONE ∨ mode state = EXPLICIT → loopIncludesOnly acc) →
  (mode state = ALL → loopExcludesOnly acc) →
  descriptorInvariant (withLoop state newMode acc).
Proof.
  intros Hmode Hincl Hexcl. unfold descriptorInvariant. simpl.
  assert (loopIncludesOnly (startLoop (withLoop state newMode acc))
          = loopIncludesOnly acc) as -> by (by destruct acc).
  assert (loopExcludesOnly (startLoop (withLoop state newMode acc))
          = loopExcludesOnly acc) as -> by (by destruct acc).
  split.
  - intros Hnew. apply Hincl. destruct Hmode as [->|[-> _]]; auto.
  - intros Hnew. apply Hexcl. destruct Hmode as [->|[_ ->]]; done.
Qed.

Lemma newMode_cases state (promote : bool) :
  (if bool_decide (mode state = NONE) && promote then EXPLICIT else mode state)
  = mode state
  ∨ (mode state = NONE
     ∧ (if bool_decide (mode state = NONE) && promote then EXPLICIT
        else mode state) = EXPLICIT).
Proof.
  case_bool_decide as Hnone; destruct promote; simpl; auto.
Qed.

Lemma descriptorInvariant_step state action :
  descriptorInvariant state →
  descriptorInvariant (selectionReducer state action).
Proof.
  intros [Hincl Hexcl].
  destruct action as [id index|rows|rows|count| | |total|rows selected].
  - rewrite toggle_as_row. cbv zeta.
    destruct (checkIsRowSelected state id index).
    + apply descriptorInvariant_withLoop; [by left| |]; intros Hm.
      * apply (row_includesOnly state _ _ false); auto.
      * apply (row_excludesOnly state _ _ false); auto.
    + apply descriptorInvariant_withLoop; [| |]; try intros Hm.
      * pose proof (newMode_cases state true) as Hc.
        by rewrite andb_true_r in Hc.
      * apply (row_includesOnly state _ _ true); auto.
      * apply (row_excludesOnly state _ _ true); auto.
  - apply descriptorInvariant_withLoop; [| |]; try intros Hm.
    + pose proof (newMode_cases state true) as Hc.
      by rewrite andb_true_r in Hc.
    + apply (foldl_preserves loopIncludesOnly); [auto|].
      intros acc r. by apply (row_includesOnly state _ _ true).
    + apply (foldl_preserves loopExcludesOnly); [auto|].
      intros acc r. by apply (row_excludesOnly state _ _ true).
  - apply descriptorInvariant_withLoop; [by left| |]; intros Hm.
    + apply (foldl_preserves loopIncludesOnly); [auto|].
      intros acc r. by apply (row_includesOnly state _ _ false).
    + apply (foldl_preserves loopExcludesOnly); [auto|].
      intros acc r. by apply (row_excludesOnly state _ _ false).
  - simpl. case_decide; split; intros _;
      (apply loopIncludesOnly_fresh || apply loopExcludesOnly_fresh).
  - split; intros _;
      (apply loopIncludesOnly_fresh || apply loopExcludesOnly_fresh).
  - split; intros _;
      (apply loopIncludesOnly_fresh || apply loopExcludesOnly_fresh).
  - done.
  - apply descriptorInvariant_withLoop; [apply newMode_cases| |]; intros Hm.
    + apply (foldl_preserves loopIncludesOnly); [auto|].
      intros acc r. by apply (row_includesOnly state _ _ selected).
    + apply (foldl_preserves loopExcludesOnly); [auto|].
      intros acc r. by apply (row_excludesOnly state _ _ selected).
Qed.

Lemma reachable_descriptorInvariant state :
  reachable state → descriptorInvariant state.
Proof.
  induction 1 as [total|state action _ IH].
  - split; intros _;
      (apply loopIncludesOnly_fresh || apply loopExcludesOnly_fresh).
  - by apply descriptorInvariant_step.
Qed.

(** C7, as stated, fails.  In [reusedIndexState], which is reachable, the
    record of id "b" at its cached index 0 is selected for the membership
    query (index 0 is included) and is not selected for the descriptor, which
    under EXPLICIT carries the included ids only. *)
Lemma descriptor_misses_included_index :
  reachable reusedIndexState
  ∧ idToIndexCache reusedIndexState !! "b" = Some 0
  ∧ getSelectionDescriptor reusedIndexState =
      {| descMode := EXPLICIT; descRangeCount := None;
         descIncludedIds := Some ["c"]; descExcludedIds := None;
         descExcludedIndices := None |}
  ∧ checkIsRowSelected reusedIndexState "b" 0 = true
  ∧ descriptorSelects (getSelectionDescriptor reusedIndexState) "b" 0 = false.
Proof. split; [apply reachable_run|]. by vm_compute. Qed.

(** The same disagreement under RANGE, where the descriptor carries no
    included override: a row selected beyond the range. *)
Example descriptor_drops_range_inclusion :
  let s := run 10 [BULK_SELECT 5; TOGGLE_ROW "a" 7] in
  getSelectionDescriptor s =
    {| descMode := RANGE; descRangeCount := Some 5;
       descIncludedIds := None; descExcludedIds := None;
       descExcludedIndices := None |}
  ∧ checkIsRowSelected s "a" 7 = true
  ∧ descriptorSelects (getSelectionDescriptor s) "a" 7 = false.
Proof. by vm_compute. Qed.

(** C7, amended.  In every reachable state, for every record (id, index)
    that the identity cache records in both directions, membership
    reconstructed from the descriptor equals the membership query when the
    mode is NONE, EXPLICIT or ALL, and under RANGE when neither the id nor
    the index of the record is in an included override set. *)
Theorem descriptor_round_trip (state : SelectionState) (id : string)
    (index : Z) :
  reachable state →
  idToIndexCache state !! id = Some index →
  indexToIdCache state !! index = Some id →
  (mode state = RANGE →
   (id ∉ includedIds (overrides state))
   ∧ (index ∉ includedIndices (overrides state))) →
  descriptorSelects (getSelectionDescriptor state) id index
  = checkIsRowSelected state id index.
Proof.
  intros Hreach H2 H1 Hrange.
  pose proof (reachable_descriptorInvariant state Hreach) as [Hincl Hexcl].
  pose proof (reachable_pristineNone state Hreach) as Hnone.
  rewrite descriptorSelects_projection. unfold checkIsRowSelected.
  destruct (mode state) eqn:Hmode.
  - destruct Hnone as (Hii & Hei & Hix & Hex & _); [done|].
    rewrite Hii, Hei, Hix, Hex. split_decide; set_solver.
  - destruct Hincl as (Hei & Hex & Hpair); [auto|]. simpl in Hei, Hex, Hpair.
    rewrite Hei, Hex. specialize (Hpair id index H2 H1).
    case_bool_decide; split_decide; try done; set_solver.
  - destruct Hrange as [Hii Hix]; [done|].
    do 2 case_bool_decide; split_decide; done.
  - destruct Hexcl as (Hii & Hix & Hpair); [done|]. simpl in Hii, Hix, Hpair.
    rewrite Hii, Hix. specialize (Hpair id index H2 H1).
    case_bool_decide; split_decide; try done; set_solver.
Qed.

Lemma descriptor_round_trip_witness :
  let s := run 10 [BULK_SELECT 5; TOGGLE_ROW "a" 2] in
  mode s = RANGE
  ∧ descriptorSelects (getSelectionDescriptor s) "a" 2
    = checkIsRowSelected s "a" 2.
Proof.
  split; [done|].
  apply (descriptor_round_trip (run 10 [BULK_SELECT 5; TOGGLE_ROW "a" 2])
           "a" 2).
  - apply reachable_run.
  - by vm_compute.
  - by vm_compute.
  - intros _.
    assert (includedIds (overrides (run 10 [BULK_SELECT 5; TOGGLE_ROW "a" 2]))
            = ∅) as -> by (by vm_compute).
    assert (includedIndices
              (overrides (run 10 [BULK_SELECT 5; TOGGLE_ROW "a" 2]))
            = ∅) as -> by (by vm_compute).
    set_solver.
Defined.

(** ** Bounds of the selected count *)

Lemma addKnownIndices_elem cache ids acc index :
  index ∈ addKnownIndices cache ids acc →
  index ∈ acc ∨ ∃ id, id ∈ ids ∧ cache !! id = Some index.
Proof.
  unfold addKnownIndices. revert index.
  apply (set_fold_ind_L
    (λ (r : gset Z) (X : gset string),
       ∀ index, index ∈ r →
                index ∈ acc ∨ ∃ id, id ∈ X ∧ cache !! id = Some index)).
  - auto.
  - intros id X r Hfresh IH index.
    destruct (cache !! id) as [known|] eqn:Hcache.
    + rewrite elem_of_union, elem_of_singleton. intros [->|Hin].
      * right. exists id. split; [set_solver|done].
      * destruct (IH _ Hin) as [?|(id' & ? & ?)]; [by left|].
        right. exists id'. split; [set_solver|done].
    + intros Hin. destruct (IH _ Hin) as [?|(id' & ? & ?)]; [by left|].
      right. exists id'. split; [set_solver|done].
Qed.

Lemma countUnknownIds_nonneg cache ids : 0 ≤ countUnknownIds cache ids.
Proof.
  unfold countUnknownIds.
  apply (set_fold_ind_L (λ (n : Z) (_ : gset string), 0 ≤ n)); [done|].
  intros id X n _ IH. destruct (cache !! id); lia.
Qed.

Lemma countUnknownIds_known cache ids :
  (∀ id, id ∈ ids → is_Some (cache !! id)) → countUnknownIds cache ids = 0.
Proof.
  unfold countUnknownIds.
  apply (set_fold_ind_L
    (λ (n : Z) (X : gset string),
       (∀ id, id ∈ X → is_Some (cache !! id)) → n = 0)); [done|].
  intros id X n _ IH Hknown.
  destruct (Hknown id) as [index ->]; [set_solver|].
  apply IH. intros id' Hin. apply Hknown. set_solver.
Qed.

(** A set of indices of a collection of [n] records has at most [n]
    elements. *)
Lemma size_within (X : gset Z) n :
  0 ≤ n → (∀ index, index ∈ X → 0 ≤ index < n) → Z.of_nat (size X) ≤ n.
Proof.
  intros Hn Hbound.
  assert (X ⊆ list_to_set (seqZ 0 n)) as Hsub.
  { intros index Hin. apply elem_of_list_to_set, elem_of_seqZ.
    specialize (Hbound index Hin). lia. }
  apply subseteq_size in Hsub.
  rewrite size_list_to_set, length_seqZ in Hsub by apply NoDup_seqZ.
  lia.
Qed.

Lemma count_nonneg state : 0 ≤ calculateSelectedCount state.
Proof.
  unfold calculateSelectedCount.
  pose proof (countUnknownIds_nonneg (idToIndexCache state)
                (includedIds (overrides state))).
  destruct (mode state); lia.
Qed.

(** Without included overrides, a RANGE or ALL count is at most the base
    count. *)
Lemma count_without_inclusions state :
  mode state = RANGE ∨ mode state = ALL →
  includedIds (overrides state) = ∅ →
  includedIndices (overrides state) = ∅ →
  0 ≤ totalRecords state →
  calculateSelectedCount state ≤ totalRecords state.
Proof.
  intros Hmode Hii Hix Htotal. unfold calculateSelectedCount.
  rewrite Hii, Hix, countIndicesOutsideBase_empty, countIdsOutsideBase_empty.
  pose proof (countUnknownIds_nonneg (idToIndexCache state)
                (excludedIds (overrides state))).
  destruct Hmode as [-> | ->]; lia.
Qed.

Lemma reachableWithin_reachable state :
  reachableWithin state → reachable state.
Proof.
  induction 1; [apply reachable_init | by apply reachable_step].
Qed.

Lemma foldl_preserves_Forall {A B} (P : A → Prop) (Q : B → Prop)
    (f : A → B → A) (l : list B) a :
  P a → Forall Q l → (∀ a b, Q b → P a → P (f a b)) → P (foldl f a l).
Proof.
  intros Ha Hl Hstep. revert a Ha.
  induction Hl as [|b l Hb _ IH]; intros a Ha; simpl; [done|].
  by apply IH, Hstep.
Qed.

Lemma row_within total state acc r (selected : bool) :
  rowWithin total r → loopWithin total acc →
  loopWithin total (if selected then selectRow state acc r
                    else deselectRow state acc r).
Proof.
  unfold rowWithin, loopWithin, selectRow, deselectRow.
  intros Hr (Hknown & Hcache & Hindex).
  destruct selected, (wouldBaseModeSelect state (absoluteIndex r)); simpl;
    (split; [|split]).
  all: try (intros id index; rewrite lookup_insert; case_decide;
            [intros [= <-]; done | apply Hcache]).
  all: try (intros id Hin; rewrite lookup_insert; case_decide; [done|];
            apply Hknown; set_solver).
  all: intros index Hin;
       destruct (decide (index = absoluteIndex r)) as [->|?]; [done|];
       apply Hindex; set_solver.
Qed.

Lemma loopWithin_reset total (c1 : gmap Z string) (c2 : gmap string Z) acc :
  loopWithin total acc → newIdToIndexCache acc = c2 →
  loopWithin total {| newOverrides := createFreshOverrides;
                      newIndexToIdCache := c1; newIdToIndexCache := c2 |}.
Proof.
  intros (_ & Hcache & _) <-. unfold loopWithin. simpl.
  split; [set_solver|]. split; [done|set_solver].
Qed.

Lemma loopWithin_grow total total' acc :
  total ≤ total' → loopWithin total acc → loopWithin total' acc.
Proof.
  intros Hle (Hknown & Hcache & Hindex). unfold loopWithin.
  split; [done|]. split.
  - intros id index Hin. specialize (Hcache id index Hin). lia.
  - intros index Hin. specialize (Hindex index Hin). lia.
Qed.

Lemma withinInvariant_step state action :
  actionWithin state action →
  withinInvariant state → withinInvariant (selectionReducer state action).
Proof.
  intros Haction [Htotal Hloop].
  destruct action as [id index|rows|rows|count| | |total|rows selected];
    simpl in Haction.
  - rewrite toggle_as_row. cbv zeta.
    destruct (checkIsRowSelected state id index); (split; [done|]).
    + by apply (row_within _ state (startLoop state) _ false).
    + by apply (row_within _ state (startLoop state) _ true).
  - split; [done|].
    apply (foldl_preserves_Forall (loopWithin (totalRecords state))
             (rowWithin (totalRecords state))); [done..|].
    intros acc r Hr. by apply (row_within _ state acc r true).
  - split; [done|].
    apply (foldl_preserves_Forall (loopWithin (totalRecords state))
             (rowWithin (totalRecords state))); [done..|].
    intros acc r Hr. by apply (row_within _ state acc r false).
  - split; [simpl; by case_decide|].
    simpl. case_decide; by apply (loopWithin_reset _ _ _ (startLoop state)).
  - split; [done|]. by apply (loopWithin_reset _ _ _ (startLoop state)).
  - split; [done|]. by apply (loopWithin_reset _ _ _ (startLoop state)).
  - split; [simpl; lia|].
    by apply (loopWithin_grow (totalRecords state) total (startLoop state)).
  - split; [done|].
    apply (foldl_preserves_Forall (loopWithin (totalRecords state))
             (rowWithin (totalRecords state))); [done..|].
    intros acc r Hr. by apply (row_within _ state acc r selected).
Qed.

Lemma reachableWithin_invariant state :
  reachableWithin state → withinInvariant state.
Proof.
  induction 1 as [total Htotal|state action _ IH Haction].
  - split; [done|]. unfold loopWithin. simpl.
    split; [set_solver|]. split; [|set_solver].
    intros id index. by rewrite lookup_empty.
  - by apply withinInvariant_step.
Qed.

(** Every override key of a reachable state is a key of the identity
    cache. *)
Lemma row_known state acc r (selected : bool) :
  loopKnown acc →
  loopKnown (if selected then selectRow state acc r
             else deselectRow state acc r).
Proof.
  unfold loopKnown, selectRow, deselectRow. intros [Hid Hindex].
  destruct selected, (wouldBaseModeSelect state (absoluteIndex r)); simpl;
    (split; [intros id Hin | intros index Hin]);
    rewrite lookup_insert; case_decide; try done;
    (apply Hid || apply Hindex); set_solver.
Qed.

Lemma loopKnown_fresh c1 c2 :
  loopKnown {| newOverrides := createFreshOverrides;
               newIndexToIdCache := c1; newIdToIndexCache := c2 |}.
Proof. unfold loopKnown. simpl. set_solver. Qed.

Lemma loopKnown_step state action :
  loopKnown (startLoop state) →
  loopKnown (startLoop (selectionReducer state action)).
Proof.
  intros Hinv.
  destruct action as [id index|rows|rows|count| | |total|rows selected].
  - rewrite toggle_as_row. cbv zeta.
    destruct (checkIsRowSelected state id index).
    + by apply (row_known state (startLoop state) _ false).
    + by apply (row_known state (startLoop state) _ true).
  - apply (foldl_preserves loopKnown); [done|].
    intros acc r. apply (row_known state acc r true).
  - apply (foldl_preserves loopKnown); [done|].
    intros acc r. apply (row_known state acc r false).
  - simpl. case_decide; apply loopKnown_fresh.
  - apply loopKnown_fresh.
  - apply loopKnown_fresh.
  - done.
  - apply (foldl_preserves loopKnown); [done|].
    intros acc r. apply (row_known state acc r selected).
Qed.

Lemma reachable_known state : reachable state → loopKnown (startLoop state).
Proof.
  induction 1 as [total|state action _ IH].
  - apply loopKnown_fresh.
  - by apply loopKnown_step.
Qed.

(** C3, as stated, fails.  [shrunkTotalState] is reachable, its selected
    count is 3 and its totalRecords is 2. *)
Lemma count_exceeds_shrunk_total :
  reachable shrunkTotalState
  ∧ calculateSelectedCount shrunkTotalState = 3
  ∧ totalRecords shrunkTotalState = 2
  ∧ ¬ (0 ≤ calculateSelectedCount shrunkTotalState
         ≤ totalRecords shrunkTotalState).
Proof.
  split; [apply reachable_run|].
  assert (calculateSelectedCount shrunkTotalState = 3) as ->
    by (by vm_compute).
  assert (totalRecords shrunkTotalState = 2) as -> by done.
  repeat split; lia.
Qed.

(** Rows whose index lies beyond totalRecords exceed the total as well. *)
Example count_exceeds_with_rows_beyond_total :
  let s := run 2 [TOGGLE_ROW "a" 5; TOGGLE_ROW "b" 6; TOGGLE_ROW "c" 7] in
  calculateSelectedCount s = 3 ∧ totalRecords s = 2.
Proof. by vm_compute. Qed.

(** Under RANGE a record selected beyond the range enters both includedIds
    and includedIndices, and the count adds one for each of the two. *)
Example range_inclusion_counted_twice :
  let s := run 6 [BULK_SELECT 5; TOGGLE_ROW "f" 5] in
  includedIds (overrides s) = {["f"]}
  ∧ includedIndices (overrides s) = {[5]}
  ∧ calculateSelectedCount s = 7 ∧ totalRecords s = 6.
Proof. by vm_compute. Qed.

(** The states that the lowered total of the counterexample leaves within
    the bound: an ALL state (Scenario B's UPDATE_TOTAL after a selection of
    everything) and a RANGE state keep the count at or below the new total,
    as the count reads totalRecords in those modes. *)
Example count_after_lowered_total :
  let all := run 10 [SELECT_ALL; TOGGLE_ROW "a" 5; UPDATE_TOTAL_RECORDS 3] in
  let range := run 1000 [BULK_SELECT 50; UPDATE_TOTAL_RECORDS 30] in
  mode all = ALL ∧ calculateSelectedCount all = 2 ∧ totalRecords all = 3
  ∧ mode range = RANGE ∧ calculateSelectedCount range = 30
  ∧ totalRecords range = 30.
Proof. by vm_compute. Qed.

(** C3, amended.  The selected count is at least 0 in every state.  It is at
    most totalRecords in every state that is reached from an initial state by
    any commands and whose totalRecords is at least 0, with two provisos: in
    an EXPLICIT state every included index and the cached index of every
    included id lies between 0 and totalRecords, and the state is not a RANGE
    state with an included override.  The proviso on EXPLICIT states, and
    totalRecords at least 0, hold in every state that is reached from an
    initial state with totalRecords at least 0 by commands whose rows have an
    index between 0 and totalRecords and whose UPDATE_TOTAL_RECORDS does not
    lower totalRecords. *)
Theorem selected_count_bounds (state : SelectionState) :
  0 ≤ calculateSelectedCount state
  ∧ (reachable state →
     0 ≤ totalRecords state →
     (mode state = EXPLICIT → inclusionsWithin state) →
     (mode state = RANGE →
      includedIds (overrides state) = ∅
      ∧ includedIndices (overrides state) = ∅) →
     calculateSelectedCount state ≤ totalRecords state)
  ∧ (reachableWithin state →
     0 ≤ totalRecords state ∧ inclusionsWithin state).
Proof.
  split; [apply count_nonneg|]. split.
  - intros Hreach Htotal Hexplicit Hrange.
    destruct (mode state) eqn:Hmode.
    + destruct (reachable_pristineNone state Hreach Hmode)
        as (Hii & _ & Hix & _).
      unfold calculateSelectedCount. rewrite Hmode, Hii, Hix.
      rewrite addKnownIndices_empty, countUnknownIds_empty, size_empty. lia.
    + destruct (Hexplicit eq_refl) as [Hindex Hcache].
      destruct (reachable_known state Hreach) as [Hknown _].
      simpl in Hknown.
      unfold calculateSelectedCount. rewrite Hmode.
      rewrite countUnknownIds_known by (intros id Hin; apply Hknown; by left).
      rewrite Z.add_0_r. apply size_within; [done|].
      intros index [Hin|(id & Hid & Hin)]%addKnownIndices_elem;
        [by apply Hindex | by apply (Hcache id)].
    + destruct Hrange as [Hii Hix]; [done|].
      apply count_without_inclusions; auto.
    + apply reachable_descriptorInvariant in Hreach.
      destruct Hreach as [_ (Hii & Hix & _)]; [done|].
      apply count_without_inclusions; auto.
  - intros Hreach.
    destruct (reachableWithin_invariant state Hreach)
      as (Htotal & _ & Hcache & Hindex).
    simpl in Hcache, Hindex.
    split; [done|]. split; [exact Hindex|].
    intros id index _ Hin. by apply (Hcache id).
Qed.

Lemma selected_count_bounds_witness :
  (mode loweredExplicitState = EXPLICIT
   ∧ 0 ≤ calculateSelectedCount loweredExplicitState
       ≤ totalRecords loweredExplicitState)
  ∧ inclusionsWithin (run 10 [BULK_SELECT 5; TOGGLE_ROW "a" 7]).
Proof.
  split.
  - split; [done|].
    destruct (selected_count_bounds loweredExplicitState)
      as (Hlow & Hhigh & _).
    split; [exact Hlow|]. apply Hhigh.
    + apply reachable_run.
    + by vm_compute.
    + intros _. unfold inclusionsWithin.
      assert (includedIndices (overrides loweredExplicitState) = {[0; 1]})
        as -> by (by vm_compute).
      assert (includedIds (overrides loweredExplicitState) = {["a"; "b"]})
        as -> by (by vm_compute).
      assert (totalRecords loweredExplicitState = 30) as -> by done.
      split.
      * intros index Hin. set_unfold. lia.
      * intros id index Hin Hcache. set_unfold.
        destruct Hin as [-> | ->]; vm_compute in Hcache;
          injection Hcache as <-; lia.
    + intros Hmode. by vm_compute in Hmode.
  - destruct (selected_count_bounds (run 10 [BULK_SELECT 5; TOGGLE_ROW "a" 7]))
      as (_ & _ & Hwithin).
    apply Hwithin.
    apply (within_step _ (TOGGLE_ROW "a" 7)); [|simpl; lia].
    apply (within_step _ (BULK_SELECT 5)); [|done].
    apply within_init. lia.
Defined.

(** * Properties of the record-fetch service *)

Module ArtworkServiceFacts.
Import ArtworkService.

(** Two runs of the function: a page that the server does not know, and a
    well-formed answer. *)
Example fetch_not_found :
  let fetch := λ _ : URL,
    inr {| ok := false; status := 404; statusText := "Not Found";
           json := inl "no body" |} in
  fetchArtworks fetch 3 12 =
  {| requests := [requestFor 3 12];
     outcome := inl {| message := "Not Found: The requested resource does not exist";
                       statusCode := Some 404; cause := None |} |}.
Proof. reflexivity. Qed.

Example fetch_unlisted_status :
  let fetch := λ _ : URL,
    inr {| ok := false; status := 418; statusText := EmptyString;
           json := inl "no body" |} in
  outcome (fetchArtworks fetch 1 12) =
  inl {| message := "API Error: 418 Unknown error";
         statusCode := Some 418; cause := None |}.
Proof. reflexivity. Qed.

Example fetch_success :
  let body := JObject [("pagination", JObject [("total", JNumber 129884)]);
                       ("data", JArray [])] in
  let fetch := λ _ : URL,
    inr {| ok := true; status := 200; statusText := "OK"; json := inr body |} in
  fetchArtworks fetch 1 12 =
  {| requests := [{| href := "https://api.artic.edu/api/v1/artworks";
                     searchParams :=
                       [("page", "1"); ("limit", "12");
                        ("fields", "id,title,place_of_origin,artist_titles,inscriptions,date_start,date_end")] |}];
     outcome := inr body |}.
Proof. reflexivity. Qed.

Example fetch_without_pagination :
  let fetch := λ _ : URL,
    inr {| ok := true; status := 200; statusText := "OK";
           json := inr (JObject [("data", JArray [])]) |} in
  outcome (fetchArtworks fetch 1 12) =
  inl {| message := "Invalid Response: API response does not match expected format";
         statusCode := None; cause := None |}.
Proof. reflexivity. Qed.

Lemma httpErrorMessage_class st text :
  messageOfClass HttpFailure (httpErrorMessage st text).
Proof.
  unfold httpErrorMessage, messageOfClass.
  repeat case_decide; eauto 10.
Qed.

Lemma messageOfClass_distinct c c' m m' :
  messageOfClass c m → messageOfClass c' m' → c ≠ c' → m ≠ m'.
Proof.
  destruct c, c'; simpl; intros Hm Hm' Hne; try done;
    repeat match goal with
           | H : _ ∨ _ |- _ => destruct H
           | H : ∃ _, _ |- _ => destruct H
           end; subst; simpl; done.
Qed.

(** Every call falls in the class that [failureOf] gives, or succeeds. *)
Lemma fetchArtworks_classified fetch page limit :
  match failureOf fetch page limit with
  | Some c =>
      ∃ e, outcome (fetchArtworks fetch page limit) = inl e
           ∧ messageOfClass c (message e)
  | None =>
      ∃ r data, fetch (requestFor page limit) = inr r ∧ ok r = true
                ∧ json r = inr data
                ∧ fetchArtworks fetch page limit
                  = {| requests := [requestFor page limit];
                       outcome := inr data |}
  end.
Proof.
  unfold failureOf, fetchArtworks, throwError.
  destruct (decide (page < 1)); [by eexists|].
  destruct (decide (limit < 1 ∨ 100 < limit)) as [?|Hlimit].
  { rewrite decide_True by lia. by eexists. }
  rewrite decide_False by lia.
  fold (requestFor page limit).
  destruct (fetch (requestFor page limit)) as [reason|r]; [by eexists|].
  destruct (ok r) eqn:Hok; simpl.
  2: { eexists. split; [done|]. apply httpErrorMessage_class. }
  destruct (json r) as [reason|data] eqn:Hjson; [by eexists|].
  destruct (truthy data), (truthyProperty data "data"),
           (truthyProperty data "pagination"); simpl;
    try (by eexists).
  exists r, data. done.
Qed.

Lemma fetchArtworks_fails_iff fetch page limit :
  (∃ e, outcome (fetchArtworks fetch page limit) = inl e) ↔
  page < 1 ∨ limit < 1 ∨ 100 < limit
  ∨ (∃ reason, fetch (requestFor page limit) = inl reason)
  ∨ (∃ r, fetch (requestFor page limit) = inr r
          ∧ (ok r = false
             ∨ (∃ reason, json r = inl reason)
             ∨ (∃ data, json r = inr data
                        ∧ (truthy data = false
                           ∨ truthyProperty data "data" = false
                           ∨ truthyProperty data "pagination" = false)))).
Proof.
  pose proof (fetchArtworks_classified fetch page limit) as Hclass.
  unfold failureOf in Hclass.
  destruct (decide (page < 1)).
  { destruct Hclass as (e0 & He0 & _). split; eauto. }
  destruct (decide (limit < 1 ∨ 100 < limit)) as [?|Hlimit].
  { destruct Hclass as (e0 & He0 & _). split; [intros _; tauto | eauto]. }
  destruct (fetch (requestFor page limit)) as [reason|r] eqn:Hfetch.
  { destruct Hclass as (e0 & He0 & _). split; eauto 10. }
  destruct (ok r) eqn:Hok.
  2: { destruct Hclass as (e0 & He0 & _). split; eauto 10. }
  destruct (json r) as [reason|data] eqn:Hjson.
  { destruct Hclass as (e0 & He0 & _). split; eauto 10. }
  destruct (truthy data) eqn:H1, (truthyProperty data "data") eqn:H2,
           (truthyProperty data "pagination") eqn:H3; simpl in Hclass.
  2-8: destruct Hclass as (e0 & He0 & _);
       (split; [intros _; do 4 right; exists r; eauto 10 | eauto]).
  destruct Hclass as (r' & data' & _ & _ & _ & ->). simpl.
  split; [by intros [e ?]|].
  intros [?|[?|[?|[[? ?]|(r'' & [= <-] & Hbad)]]]]; try lia; try done.
  destruct Hbad as [?|[[? ?]|(data'' & Heq & Hbad)]]; try congruence.
  assert (data'' = data) as -> by congruence.
  destruct Hbad as [?|[?|?]]; congruence.
Qed.

(** C9.  A call of [fetchArtworks] either returns a value or throws an
    ArtworkServiceError, and nothing else.  It throws exactly when page < 1,
    or limit is outside [1, 100], or the request is rejected, or the response
    is not ok, or the body does not parse as JSON, or the parsed body lacks
    [data] or [pagination] (the body, or the value of the field, is absent or
    falsy).  When the arguments are invalid no request is issued.  A call
    that returns gives back the parsed body unchanged, after one request.  An
    error carries a message of its failure class, and errors of two
    different classes never carry the same message. *)
Theorem fetchArtworks_failure_classes (fetch : URL → FetchOutcome)
    (page limit : Z) :
  let call := fetchArtworks fetch page limit in
  let request := requestFor page limit in
  ((∃ e, outcome call = inl e) ↔
   page < 1 ∨ limit < 1 ∨ 100 < limit
   ∨ (∃ reason, fetch request = inl reason)
   ∨ (∃ r, fetch request = inr r
           ∧ (ok r = false
              ∨ (∃ reason, json r = inl reason)
              ∨ (∃ data, json r = inr data
                         ∧ (truthy data = false
                            ∨ truthyProperty data "data" = false
                            ∨ truthyProperty data "pagination" = false)))))
  ∧ (page < 1 ∨ limit < 1 ∨ 100 < limit → requests call = [])
  ∧ (∀ data, outcome call = inr data →
       requests call = [request]
       ∧ ∃ r, fetch request = inr r ∧ json r = inr data)
  ∧ (∀ e, outcome call = inl e →
       ∃ c, failureOf fetch page limit = Some c
            ∧ messageOfClass c (message e))
  ∧ (∀ fetch' page' limit' e e',
       outcome call = inl e →
       outcome (fetchArtworks fetch' page' limit') = inl e' →
       failureOf fetch page limit ≠ failureOf fetch' page' limit' →
       message e ≠ message e').
Proof.
  cbv zeta.
  assert (∀ f p l e, outcome (fetchArtworks f p l) = inl e →
            ∃ c, failureOf f p l = Some c ∧ messageOfClass c (message e))
    as Hmessage.
  { intros f p l e He.
    pose proof (fetchArtworks_classified f p l) as Hclass.
    destruct (failureOf f p l) as [c|].
    - destruct Hclass as (e0 & He0 & Hm). exists c. split; [done|].
      congruence.
    - destruct Hclass as (r & data & _ & _ & _ & Hcall).
      rewrite Hcall in He. discriminate. }
  split; [apply fetchArtworks_fails_iff|].
  split.
  { unfold fetchArtworks. intros Hinvalid.
    destruct (decide (page < 1)); [done|].
    rewrite decide_True by lia. done. }
  split.
  { intros data Hdata.
    pose proof (fetchArtworks_classified fetch page limit) as Hclass.
    destruct (failureOf fetch page limit) as [c|].
    - destruct Hclass as (e0 & He0 & _). congruence.
    - destruct Hclass as (r & data' & Hfetch & _ & Hjson & Hcall).
      rewrite Hcall in Hdata |- *. simpl in *. split; [done|].
      exists r. split; [done|]. congruence. }
  split; [apply Hmessage|].
  intros fetch' page' limit' e e' He He' Hne.
  destruct (Hmessage _ _ _ _ He) as (c & Hc & Hm).
  destruct (Hmessage _ _ _ _ He') as (c' & Hc' & Hm').
  apply (messageOfClass_distinct c c'); [done..|]. congruence.
Qed.

End ArtworkServiceFacts.

(** * Further properties of the selection engine

    The page commands, the bulk commands, the page-scoped queries of the hook
    and the handlers of the table. *)

(** ** What a page loop leaves *)

Lemma exists_elem_of_cons {A} (P : A → Prop) (x : A) (l : list A) :
  (∃ y, y ∈ x :: l ∧ P y) ↔ P x ∨ ∃ y, y ∈ l ∧ P y.
Proof.
  split.
  - intros (y & [->|Hin]%elem_of_cons & Hy); eauto.
  - intros [Hx|(y & Hin & Hy)]; [exists x|exists y];
      (split; [|done]); set_solver.
Qed.

Lemma selectLoop_overrides state rows acc :
  let ov := newOverrides acc in
  let ov' := newOverrides (foldl (selectRow state) acc rows) in
  (∀ id, id ∈ excludedIds ov' ↔ id ∈ excludedIds ov ∧ id ∉ rowId <$> rows)
  ∧ (∀ index, index ∈ excludedIndices ov' ↔
              index ∈ excludedIndices ov ∧ index ∉ absoluteIndex <$> rows)
  ∧ (∀ id, id ∈ includedIds ov' ↔
           id ∈ includedIds ov
           ∨ ∃ r, r ∈ rows ∧ rowId r = id
                  ∧ wouldBaseModeSelect state (absoluteIndex r) = false)
  ∧ (∀ index, index ∈ includedIndices ov' ↔
              index ∈ includedIndices ov
              ∨ ∃ r, r ∈ rows ∧ absoluteIndex r = index
                     ∧ wouldBaseModeSelect state (absoluteIndex r) = false).
Proof.
  cbv zeta. revert acc.
  induction rows as [|r rows IH]; intros acc; simpl.
  - set_solver.
  - destruct (IH (selectRow state acc r)) as (Hei & Hex & Hii & Hix).
    split; [|split; [|split]]; intros x.
    + rewrite Hei. unfold selectRow.
      destruct (wouldBaseModeSelect state (absoluteIndex r)); simpl; set_solver.
    + rewrite Hex. unfold selectRow.
      destruct (wouldBaseModeSelect state (absoluteIndex r)); simpl; set_solver.
    + rewrite Hii, exists_elem_of_cons. unfold selectRow.
      destruct (wouldBaseModeSelect state (absoluteIndex r)) eqn:Hbase; simpl;
        rewrite ?elem_of_union, ?elem_of_singleton; intuition congruence.
    + rewrite Hix, exists_elem_of_cons. unfold selectRow.
      destruct (wouldBaseModeSelect state (absoluteIndex r)) eqn:Hbase; simpl;
        rewrite ?elem_of_union, ?elem_of_singleton; intuition congruence.
Qed.

Lemma deselectLoop_overrides state rows acc :
  let ov := newOverrides acc in
  let ov' := newOverrides (foldl (deselectRow state) acc rows) in
  (∀ id, id ∈ includedIds ov' ↔ id ∈ includedIds ov ∧ id ∉ rowId <$> rows)
  ∧ (∀ index, index ∈ includedIndices ov' ↔
              index ∈ includedIndices ov ∧ index ∉ absoluteIndex <$> rows)
  ∧ (∀ id, id ∈ excludedIds ov' ↔
           id ∈ excludedIds ov
           ∨ ∃ r, r ∈ rows ∧ rowId r = id
                  ∧ wouldBaseModeSelect state (absoluteIndex r) = true)
  ∧ (∀ index, index ∈ excludedIndices ov' ↔
              index ∈ excludedIndices ov
              ∨ ∃ r, r ∈ rows ∧ absoluteIndex r = index
                     ∧ wouldBaseModeSelect state (absoluteIndex r) = true).
Proof.
  cbv zeta. revert acc.
  induction rows as [|r rows IH]; intros acc; simpl.
  - set_solver.
  - destruct (IH (deselectRow state acc r)) as (Hii & Hix & Hei & Hex).
    split; [|split; [|split]]; intros x.
    + rewrite Hii. unfold deselectRow.
      destruct (wouldBaseModeSelect state (absoluteIndex r)); simpl; set_solver.
    + rewrite Hix. unfold deselectRow.
      destruct (wouldBaseModeSelect state (absoluteIndex r)); simpl; set_solver.
    + rewrite Hei, exists_elem_of_cons. unfold deselectRow.
      destruct (wouldBaseModeSelect state (absoluteIndex r)) eqn:Hbase; simpl;
        rewrite ?elem_of_union, ?elem_of_singleton; intuition congruence.
    + rewrite Hex, exists_elem_of_cons. unfold deselectRow.
      destruct (wouldBaseModeSelect state (absoluteIndex r)) eqn:Hbase; simpl;
        rewrite ?elem_of_union, ?elem_of_singleton; intuition congruence.
Qed.

(** The membership query reads the four sets through membership alone. *)
Lemma selectedWith_ext base ov ov' id index :
  (id ∈ excludedIds ov ↔ id ∈ excludedIds ov') →
  (id ∈ includedIds ov ↔ id ∈ includedIds ov') →
  (index ∈ excludedIndices ov ↔ index ∈ excludedIndices ov') →
  (index ∈ includedIndices ov ↔ index ∈ includedIndices ov') →
  selectedWith base ov id index = selectedWith base ov' id index.
Proof.
  intros Hei Hii Hex Hix. unfold selectedWith.
  split_decide; try done; tauto.
Qed.

(** A row command keeps the base-mode default: the mode stays, or goes from
    NONE to EXPLICIT, and the range count stays. *)
Lemma rowCommand_base state action index :
  rowCommand action →
  wouldBaseModeSelect (selectionReducer state action) index
  = wouldBaseModeSelect state index.
Proof.
  destruct action as [id i|rows|rows|count| | |total|rows selected];
    simpl; try done; intros _.
  - apply toggle_base.
  - unfold wouldBaseModeSelect. simpl. by case_bool_decide as Hm; [rewrite Hm|].
  - unfold wouldBaseModeSelect. simpl.
    case_bool_decide as Hm; destruct selected; simpl; try done. by rewrite Hm.
Qed.

Lemma selectLoop_selects state rows acc r :
  r ∈ rows →
  selectedWith (wouldBaseModeSelect state (absoluteIndex r))
    (newOverrides (foldl (selectRow state) acc rows))
    (rowId r) (absoluteIndex r) = true.
Proof.
  intros Hr.
  destruct (selectLoop_overrides state rows acc) as (Hei & Hex & Hii & Hix).
  unfold selectedWith.
  destruct (decide (rowId r ∈ _)) as [Hin|_].
  { apply Hei in Hin as [_ Hout]. exfalso. apply Hout. set_solver. }
  destruct (decide (rowId r ∈ _)) as [|Hout]; [done|].
  destruct (decide (absoluteIndex r ∈ _)) as [Hin|_].
  { apply Hex in Hin as [_ Hout']. exfalso. apply Hout'. set_solver. }
  destruct (decide (absoluteIndex r ∈ _)) as [|_]; [done|].
  destruct (wouldBaseModeSelect state (absoluteIndex r)) eqn:Hbase; [done|].
  exfalso. apply Hout, Hii. right. by exists r.
Qed.

Lemma deselectLoop_deselects state rows acc r :
  r ∈ rows →
  selectedWith (wouldBaseModeSelect state (absoluteIndex r))
    (newOverrides (foldl (deselectRow state) acc rows))
    (rowId r) (absoluteIndex r) = false.
Proof.
  intros Hr.
  destruct (deselectLoop_overrides state rows acc) as (Hii & Hix & Hei & Hex).
  unfold selectedWith.
  destruct (decide (rowId r ∈ _)) as [|Hout]; [done|].
  destruct (decide (rowId r ∈ _)) as [Hin|_].
  { apply Hii in Hin as [_ Hout']. exfalso. apply Hout'. set_solver. }
  destruct (decide (absoluteIndex r ∈ _)) as [|_]; [done|].
  destruct (decide (absoluteIndex r ∈ _)) as [Hin|_].
  { apply Hix in Hin as [_ Hout']. exfalso. apply Hout'. set_solver. }
  destruct (wouldBaseModeSelect state (absoluteIndex r)) eqn:Hbase; [|done].
  exfalso. apply Hout, Hei. right. by exists r.
Qed.

Lemma selectLoop_frame state rows acc base id index :
  id ∉ rowId <$> rows → index ∉ absoluteIndex <$> rows →
  selectedWith base (newOverrides (foldl (selectRow state) acc rows)) id index
  = selectedWith base (newOverrides acc) id index.
Proof.
  intros Hid Hindex.
  destruct (selectLoop_overrides state rows acc) as (Hei & Hex & Hii & Hix).
  apply selectedWith_ext.
  - rewrite Hei. tauto.
  - rewrite Hii. split; [intros [?|(r & Hr & <- & _)]|]; [done| |tauto].
    exfalso. apply Hid. set_solver.
  - rewrite Hex. tauto.
  - rewrite Hix. split; [intros [?|(r & Hr & <- & _)]|]; [done| |tauto].
    exfalso. apply Hindex. set_solver.
Qed.

Lemma deselectLoop_frame state rows acc base id index :
  id ∉ rowId <$> rows → index ∉ absoluteIndex <$> rows →
  selectedWith base (newOverrides (foldl (deselectRow state) acc rows)) id index
  = selectedWith base (newOverrides acc) id index.
Proof.
  intros Hid Hindex.
  destruct (deselectLoop_overrides state rows acc) as (Hii & Hix & Hei & Hex).
  apply selectedWith_ext.
  - rewrite Hei. split; [intros [?|(r & Hr & <- & _)]|]; [done| |tauto].
    exfalso. apply Hid. set_solver.
  - rewrite Hii. tauto.
  - rewrite Hex. split; [intros [?|(r & Hr & <- & _)]|]; [done| |tauto].
    exfalso. apply Hindex. set_solver.
  - rewrite Hix. tauto.
Qed.

(** ** The page commands *)

(** X1. After SELECT_ALL_PAGE every row of the payload is selected, whatever
    the mode and the overrides were. *)
Theorem select_all_page_selects (state : SelectionState)
    (rows : list IndexedRow) (r : IndexedRow) :
  r ∈ rows →
  checkIsRowSelected (selectionReducer state (SELECT_ALL_PAGE rows))
    (rowId r) (absoluteIndex r) = true.
Proof.
  intros Hr. rewrite checkIsRowSelected_with, rowCommand_base by done.
  by apply (selectLoop_selects state rows (startLoop state)).
Qed.

Lemma select_all_page_selects_witness :
  let r := {| rowId := "a"; absoluteIndex := 3 |} in
  let state := run 10 [BULK_SELECT 5; TOGGLE_ROW "a" 3] in
  checkIsRowSelected state "a" 3 = false
  ∧ checkIsRowSelected (selectionReducer state (SELECT_ALL_PAGE [r])) "a" 3
    = true.
Proof.
  split; [by vm_compute|].
  apply (select_all_page_selects (run 10 [BULK_SELECT 5; TOGGLE_ROW "a" 3])
           [{| rowId := "a"; absoluteIndex := 3 |}]
           {| rowId := "a"; absoluteIndex := 3 |}).
  set_solver.
Defined.

(** X2. After DESELECT_ALL_PAGE no row of the payload is selected. *)
Theorem deselect_all_page_deselects (state : SelectionState)
    (rows : list IndexedRow) (r : IndexedRow) :
  r ∈ rows →
  checkIsRowSelected (selectionReducer state (DESELECT_ALL_PAGE rows))
    (rowId r) (absoluteIndex r) = false.
Proof.
  intros Hr. rewrite checkIsRowSelected_with, rowCommand_base by done.
  by apply (deselectLoop_deselects state rows (startLoop state)).
Qed.

Lemma deselect_all_page_deselects_witness :
  let r := {| rowId := "a"; absoluteIndex := 3 |} in
  let state := run 10 [SELECT_ALL] in
  checkIsRowSelected state "a" 3 = true
  ∧ checkIsRowSelected (selectionReducer state (DESELECT_ALL_PAGE [r])) "a" 3
    = false.
Proof.
  split; [by vm_compute|].
  apply (deselect_all_page_deselects (run 10 [SELECT_ALL])
           [{| rowId := "a"; absoluteIndex := 3 |}]
           {| rowId := "a"; absoluteIndex := 3 |}).
  set_solver.
Defined.

(** X3. After SYNC_PAGE_SELECTION every row of the payload has the selection
    value that the command carries. *)
Theorem sync_page_selection_sets (state : SelectionState)
    (rows : list IndexedRow) (selected : bool) (r : IndexedRow) :
  r ∈ rows →
  checkIsRowSelected (selectionReducer state (SYNC_PAGE_SELECTION rows selected))
    (rowId r) (absoluteIndex r) = selected.
Proof.
  intros Hr. rewrite checkIsRowSelected_with, rowCommand_base by done.
  destruct selected.
  - by apply (selectLoop_selects state rows (startLoop state)).
  - by apply (deselectLoop_deselects state rows (startLoop state)).
Qed.

Lemma sync_page_selection_sets_witness :
  let r := {| rowId := "a"; absoluteIndex := 7 |} in
  let state := run 10 [BULK_SELECT 5] in
  checkIsRowSelected state "a" 7 = false
  ∧ checkIsRowSelected
      (selectionReducer state (SYNC_PAGE_SELECTION [r] true)) "a" 7 = true.
Proof.
  split; [by vm_compute|].
  apply (sync_page_selection_sets (run 10 [BULK_SELECT 5])
           [{| rowId := "a"; absoluteIndex := 7 |}] true
           {| rowId := "a"; absoluteIndex := 7 |}).
  set_solver.
Defined.

(** X4. A command that works row by row (TOGGLE_ROW and the three page
    commands) leaves the membership of every record whose id and whose index
    are not named by the command as it was. *)
Theorem row_command_frame (state : SelectionState) (action : SelectionAction)
    (id : string) (index : Z) :
  rowCommand action →
  id ∉ rowId <$> touchedRows action →
  index ∉ absoluteIndex <$> touchedRows action →
  checkIsRowSelected (selectionReducer state action) id index
  = checkIsRowSelected state id index.
Proof.
  intros Hrow Hid Hindex.
  rewrite !checkIsRowSelected_with, rowCommand_base by done.
  destruct action as [tid tindex|rows|rows|count| | |total|rows selected];
    try done; simpl in Hid, Hindex.
  - rewrite toggle_overrides. unfold toggleOverrides.
    apply selectedWith_ext;
      destruct (checkIsRowSelected state tid tindex),
               (wouldBaseModeSelect state tindex); simpl; set_solver.
  - by apply (selectLoop_frame state rows (startLoop state)).
  - by apply (deselectLoop_frame state rows (startLoop state)).
  - destruct selected.
    + by apply (selectLoop_frame state rows (startLoop state)).
    + by apply (deselectLoop_frame state rows (startLoop state)).
Qed.

Lemma row_command_frame_witness :
  let state := run 10 [BULK_SELECT 5; TOGGLE_ROW "b" 1] in
  checkIsRowSelected (selectionReducer state (TOGGLE_ROW "a" 3)) "b" 1
  = checkIsRowSelected state "b" 1.
Proof.
  apply (row_command_frame (run 10 [BULK_SELECT 5; TOGGLE_ROW "b" 1])
           (TOGGLE_ROW "a" 3) "b" 1); simpl; [done|set_solver..].
Defined.

(** X5. UPDATE_TOTAL_RECORDS leaves the membership of every record whose
    index is below the new total as it was. *)
Theorem update_total_keeps_membership (state : SelectionState) (total : Z)
    (id : string) (index : Z) :
  index < total →
  checkIsRowSelected (selectionReducer state (UPDATE_TOTAL_RECORDS total))
    id index
  = checkIsRowSelected state id index.
Proof.
  intros Hindex. unfold checkIsRowSelected. simpl.
  split_decide; try done.
  destruct (mode state); simpl; try done.
  apply bool_decide_ext. lia.
Qed.

Lemma update_total_keeps_membership_witness :
  let state := run 1000 [BULK_SELECT 50] in
  checkIsRowSelected (selectionReducer state (UPDATE_TOTAL_RECORDS 30)) "x" 20
  = checkIsRowSelected state "x" 20.
Proof.
  apply (update_total_keeps_membership (run 1000 [BULK_SELECT 50]) 30 "x" 20).
  lia.
Defined.

(** ** The bulk commands *)

(** X6. On a state whose totalRecords is not negative, BULK_SELECT(count)
    selects exactly the records whose index is below the clamped count (for
    every id and every index from 0 on), and the selected count is the
    clamped count. *)
Theorem bulk_select_first_records (state : SelectionState) (count : Z)
    (id : string) (index : Z) :
  0 ≤ totalRecords state →
  0 ≤ index →
  let clamped := Z.min (Z.max 0 count) (totalRecords state) in
  let state' := selectionReducer state (BULK_SELECT count) in
  checkIsRowSelected state' id index = bool_decide (index < clamped)
  ∧ calculateSelectedCount state' = clamped.
Proof.
  intros Htotal Hindex. cbv zeta. unfold selectionReducer.
  destruct (decide (Z.min (Z.max 0 count) (totalRecords state) = 0))
    as [Hz|Hnz].
  - rewrite Hz. split.
    + unfold checkIsRowSelected. simpl. rewrite !decide_False by set_solver.
      symmetry. apply bool_decide_eq_false_2. lia.
    + by rewrite count_fresh.
  - split.
    + unfold checkIsRowSelected. simpl. by rewrite !decide_False by set_solver.
    + rewrite count_fresh by done. simpl. lia.
Qed.

Lemma bulk_select_first_records_witness :
  let state' := selectionReducer (createInitialState 1000) (BULK_SELECT 50) in
  checkIsRowSelected state' "x" 49 = true
  ∧ checkIsRowSelected state' "x" 50 = false
  ∧ calculateSelectedCount state' = 50.
Proof.
  destruct (bulk_select_first_records (createInitialState 1000) 50 "x" 49)
    as [H49 Hcount]; [simpl; lia | lia |].
  destruct (bulk_select_first_records (createInitialState 1000) 50 "x" 50)
    as [H50 _]; [simpl; lia | lia |].
  split; [exact H49|]. split; [exact H50 | exact Hcount].
Defined.

(** X7. SELECT_ALL selects every record and CLEAR_SELECTION none, whatever
    the state was; both keep the identity caches.  After CLEAR_SELECTION the
    count is 0 and the summary is empty; after SELECT_ALL on a totalRecords
    that is not negative the count is totalRecords, and the summary says
    "all selected" exactly when totalRecords is positive. *)
Theorem select_all_and_clear (state : SelectionState) (id : string)
    (index : Z) :
  let all := selectionReducer state SELECT_ALL in
  let none := selectionReducer state CLEAR_SELECTION in
  checkIsRowSelected all id index = true
  ∧ checkIsRowSelected none id index = false
  ∧ calculateSelectedCount none = 0
  ∧ isEmpty (selectionSummary none) = true
  ∧ idToIndexCache all = idToIndexCache state
  ∧ indexToIdCache all = indexToIdCache state
  ∧ idToIndexCache none = idToIndexCache state
  ∧ indexToIdCache none = indexToIdCache state
  ∧ (0 ≤ totalRecords state →
     calculateSelectedCount all = totalRecords state
     ∧ isAllSelected (selectionSummary all)
       = bool_decide (0 < totalRecords state)
     ∧ isIndeterminate (selectionSummary all) = false).
Proof.
  cbv zeta.
  split; [unfold checkIsRowSelected; simpl;
          by rewrite !decide_False by set_solver|].
  split; [unfold checkIsRowSelected; simpl;
          by rewrite !decide_False by set_solver|].
  split; [by rewrite count_fresh|].
  split; [unfold selectionSummary; simpl; by rewrite count_fresh|].
  do 4 (split; [done|]).
  intros Htotal.
  assert (calculateSelectedCount (selectionReducer state SELECT_ALL)
          = totalRecords state) as Hcount.
  { rewrite count_fresh by done. simpl. lia. }
  split; [done|]. unfold selectionSummary. cbv zeta.
  cbn [isAllSelected isIndeterminate]. rewrite Hcount.
  change (totalRecords (selectionReducer state SELECT_ALL))
    with (totalRecords state).
  rewrite (bool_decide_eq_true_2 (totalRecords state = _)) by done.
  rewrite andb_true_l.
  split.
  - apply bool_decide_ext. lia.
  - do 2 case_bool_decide; simpl; try done; lia.
Qed.

Lemma select_all_and_clear_witness :
  let all := selectionReducer (createInitialState 1000) SELECT_ALL in
  calculateSelectedCount all = 1000
  ∧ isAllSelected (selectionSummary all) = true.
Proof.
  pose proof (select_all_and_clear (createInitialState 1000) "x" 0)
    as (_ & _ & _ & _ & _ & _ & _ & _ & Hall).
  destruct Hall as (Hcount & Hflag & _); [simpl; lia|].
  split; [exact Hcount|]. rewrite Hflag. done.
Defined.

(** ** Minimal overrides *)

Lemma selectRow_beyond_range state acc r (selected : bool) :
  mode state = RANGE →
  (∀ index, index ∈ includedIndices (newOverrides acc) →
            rangeCount state ≤ index) →
  ∀ index,
    index ∈ includedIndices
      (newOverrides (if selected then selectRow state acc r
                     else deselectRow state acc r)) →
    rangeCount state ≤ index.
Proof.
  intros Hmode Hacc index. unfold selectRow, deselectRow.
  destruct selected;
    destruct (wouldBaseModeSelect state (absoluteIndex r)) eqn:Hbase; simpl;
    rewrite ?elem_of_union, ?elem_of_singleton, ?elem_of_difference;
    intros Hin; try (apply Hacc; tauto).
  destruct Hin as [->|Hin]; [|by apply Hacc].
  unfold wouldBaseModeSelect in Hbase. rewrite Hmode in Hbase.
  apply bool_decide_eq_false in Hbase. lia.
Qed.

Lemma beyond_range_step state action :
  (mode state = RANGE →
   ∀ index, index ∈ includedIndices (overrides state) →
            rangeCount state ≤ index) →
  mode (selectionReducer state action) = RANGE →
  ∀ index, index ∈ includedIndices (overrides (selectionReducer state action)) →
           rangeCount (selectionReducer state action) ≤ index.
Proof.
  intros Hinv.
  destruct action as [id i|rows|rows|count| | |total|rows selected].
  - rewrite toggle_as_row. cbv zeta.
    destruct (checkIsRowSelected state id i); unfold withLoop;
      cbn [mode overrides rangeCount]; intros Hmode.
    + by apply (selectRow_beyond_range state (startLoop state) _ false);
        [|apply Hinv].
    + assert (mode state = RANGE) as Hm by (by case_bool_decide).
      by apply (selectRow_beyond_range state (startLoop state) _ true);
        [|apply Hinv].
  - simpl. intros Hmode.
    assert (mode state = RANGE) as Hm by (by case_bool_decide).
    apply (foldl_preserves
             (λ acc, ∀ index, index ∈ includedIndices (newOverrides acc) →
                              rangeCount state ≤ index)); [by apply Hinv|].
    intros acc r Hacc.
    by apply (selectRow_beyond_range state acc r true).
  - simpl. intros Hm.
    apply (foldl_preserves
             (λ acc, ∀ index, index ∈ includedIndices (newOverrides acc) →
                              rangeCount state ≤ index)); [by apply Hinv|].
    intros acc r Hacc.
    by apply (selectRow_beyond_range state acc r false).
  - simpl. case_decide; simpl; intros _ index; set_solver.
  - simpl. intros _ index. set_solver.
  - simpl. intros _ index. set_solver.
  - simpl. intros Hm index Hin. rewrite bool_decide_eq_true_2 by done.
    specialize (Hinv Hm index Hin). lia.
  - simpl. intros Hmode.
    assert (mode state = RANGE) as Hm
      by (by case_bool_decide; destruct selected).
    apply (foldl_preserves
             (λ acc, ∀ index, index ∈ includedIndices (newOverrides acc) →
                              rangeCount state ≤ index)); [by apply Hinv|].
    intros acc r Hacc.
    by apply (selectRow_beyond_range state acc r selected).
Qed.

(** X8. In every reachable state the overrides are never redundant by
    polarity: under NONE and EXPLICIT nothing is excluded, under ALL nothing
    is included, and under RANGE every included index lies at or beyond
    rangeCount. *)
Theorem overrides_minimal (state : SelectionState) :
  reachable state →
  (mode state = NONE ∨ mode state = EXPLICIT →
   excludedIds (overrides state) = ∅ ∧ excludedIndices (overrides state) = ∅)
  ∧ (mode state = ALL →
     includedIds (overrides state) = ∅
     ∧ includedIndices (overrides state) = ∅)
  ∧ (mode state = RANGE →
     ∀ index, index ∈ includedIndices (overrides state) →
              rangeCount state ≤ index).
Proof.
  intros Hreach.
  destruct (reachable_descriptorInvariant state Hreach) as [Hincl Hexcl].
  split; [intros Hm; destruct (Hincl Hm) as (? & ? & _); done|].
  split; [intros Hm; destruct (Hexcl Hm) as (? & ? & _); done|].
  clear Hincl Hexcl.
  induction Hreach as [total|state action _ IH]; [done|].
  by apply beyond_range_step.
Qed.

Lemma overrides_minimal_witness :
  let state := run 10 [BULK_SELECT 5; TOGGLE_ROW "a" 7; UPDATE_TOTAL_RECORDS 3] in
  mode state = RANGE ∧ rangeCount state = 3
  ∧ ∀ index, index ∈ includedIndices (overrides state) → 3 ≤ index.
Proof.
  split; [done|]. split; [done|].
  exact (proj2 (proj2 (overrides_minimal
    (run 10 [BULK_SELECT 5; TOGGLE_ROW "a" 7; UPDATE_TOTAL_RECORDS 3])
    (reachable_run _ _))) eq_refl).
Defined.

(** ** The identity cache *)




(** X10. In every reachable state every id of an override set has a known
    index and every index of an override set has a known id, so the two
    counters of ids without a known index that the count uses are both 0. *)
Theorem overrides_have_known_keys (state : SelectionState) :
  reachable state →
  let ov := overrides state in
  (∀ id, id ∈ includedIds ov ∨ id ∈ excludedIds ov →
         is_Some (idToIndexCache state !! id))
  ∧ (∀ index, index ∈ includedIndices ov ∨ index ∈ excludedIndices ov →
              is_Some (indexToIdCache state !! index))
  ∧ countUnknownIds (idToIndexCache state) (includedIds ov) = 0
  ∧ countUnknownIds (idToIndexCache state) (excludedIds ov) = 0.
Proof.
  intros Hreach. cbv zeta.
  destruct (reachable_known state Hreach) as [Hid Hindex].
  simpl in Hid, Hindex.
  split; [done|]. split; [done|].
  split; apply countUnknownIds_known; intros id Hin; apply Hid; tauto.
Qed.

Lemma overrides_have_known_keys_witness :
  let state := run 10 [BULK_SELECT 5; TOGGLE_ROW "a" 2; TOGGLE_ROW "b" 7] in
  countUnknownIds (idToIndexCache state) (includedIds (overrides state)) = 0
  ∧ countUnknownIds (idToIndexCache state) (excludedIds (overrides state)) = 0.
Proof.
  exact (proj2 (proj2 (overrides_have_known_keys
    (run 10 [BULK_SELECT 5; TOGGLE_ROW "a" 2; TOGGLE_ROW "b" 7])
    (reachable_run _ _)))).
Defined.

(** ** The count over a stable collection *)

Section StableCollection.

Variable idOf : Z → string.
Hypothesis idOf_inj : Inj (=) (=) idOf.

Lemma image_add (ids : gset string) (indices : gset Z) j :
  (∀ id, id ∈ ids ↔ ∃ index, index ∈ indices ∧ id = idOf index) →
  ∀ id, id ∈ {[idOf j]} ∪ ids ↔
        ∃ index, index ∈ {[j]} ∪ indices ∧ id = idOf index.
Proof.
  intros Himage id. rewrite elem_of_union, elem_of_singleton, Himage. split.
  - intros [->|(index & Hin & ->)]; [exists j|exists index];
      (split; [set_solver|done]).
  - intros (index & [->%elem_of_singleton|Hin]%elem_of_union & ->);
      [by left|right; eauto].
Qed.

Lemma image_delete (ids : gset string) (indices : gset Z) j :
  (∀ id, id ∈ ids ↔ ∃ index, index ∈ indices ∧ id = idOf index) →
  ∀ id, id ∈ ids ∖ {[idOf j]} ↔
        ∃ index, index ∈ indices ∖ {[j]} ∧ id = idOf index.
Proof using idOf_inj.
  intros Himage id. rewrite elem_of_difference, elem_of_singleton, Himage.
  split.
  - intros [(index & Hin & ->) Hne]. exists index. split; [|done].
    apply elem_of_difference. split; [done|].
    intros ->%elem_of_singleton. done.
  - intros (index & [Hin Hne]%elem_of_difference & ->).
    split; [eauto|]. intros ->%idOf_inj. apply Hne. set_solver.
Qed.

Lemma row_stable state total acc r (selected : bool) :
  rowStable idOf total r →
  loopStable idOf (wouldBaseModeSelect state) total acc →
  loopStable idOf (wouldBaseModeSelect state) total
    (if selected then selectRow state acc r else deselectRow state acc r).
Proof using idOf_inj.
  intros [Hid Hrange] (Hii & Hei & Hcache & Hix & Hex).
  unfold loopStable, selectRow, deselectRow. rewrite Hid.
  destruct selected,
    (wouldBaseModeSelect state (absoluteIndex r)) eqn:Hbase; simpl.
  all: split; [|split; [|split; [|split]]].
  all: try (first [ exact Hii | exact Hei | exact Hix | exact Hex
                  | by apply image_add | by apply image_delete ]).
  all: try (intros index Hin;
            destruct (decide (index = absoluteIndex r)) as [->|Hne];
            [ by rewrite lookup_insert_eq
            | rewrite lookup_insert_ne
                by (intros Heq; apply idOf_inj in Heq; done);
              apply Hcache; set_solver ]).
  all: first [ intros index [->%elem_of_singleton|Hin]%elem_of_union; auto
             | intros index [Hin _]%elem_of_difference; auto ].
Qed.

Lemma loopStable_ext base base' total total' acc :
  (∀ index, base index = base' index) → total ≤ total' →
  loopStable idOf base total acc → loopStable idOf base' total' acc.
Proof.
  intros Hbase Htotal (Hii & Hei & Hcache & Hix & Hex). unfold loopStable.
  do 3 (split; [done|]). split; intros index Hin.
  - destruct (Hix index Hin). rewrite <- Hbase. split; [lia|done].
  - destruct (Hex index Hin). rewrite <- Hbase. split; [lia|done].
Qed.

Lemma loopStable_fresh base total c1 c2 :
  loopStable idOf base total
    {| newOverrides := createFreshOverrides;
       newIndexToIdCache := c1; newIdToIndexCache := c2 |}.
Proof.
  unfold loopStable. simpl.
  split; [|split; [|split; [|split]]]; try set_solver.
  all: intros id; split; [set_solver|]; intros (index & Hin & _); set_solver.
Qed.

Lemma withLoop_base state newMode acc index :
  newMode = mode state ∨ (mode state = NONE ∧ newMode = EXPLICIT) →
  wouldBaseModeSelect (withLoop state newMode acc) index
  = wouldBaseModeSelect state index.
Proof.
  unfold wouldBaseModeSelect. simpl. by intros [->|[-> ->]].
Qed.

Lemma stableInvariant_withLoop state newMode acc :
  newMode = mode state ∨ (mode state = NONE ∧ newMode = EXPLICIT) →
  stableInvariant idOf state →
  loopStable idOf (wouldBaseModeSelect state) (totalRecords state) acc →
  stableInvariant idOf (withLoop state newMode acc).
Proof.
  intros Hmode (Htotal & Hrange & _) Hloop. unfold stableInvariant.
  split; [done|]. split.
  - simpl. intros Hnew. apply Hrange.
    destruct Hmode as [<-|[_ Hm]]; [done|congruence].
  - apply (loopStable_ext (wouldBaseModeSelect state) _ (totalRecords state));
      [|done|by destruct acc].
    intros index. symmetry. by apply withLoop_base.
Qed.

Lemma stableInvariant_step state action :
  actionStable idOf state action →
  stableInvariant idOf state →
  stableInvariant idOf (selectionReducer state action).
Proof using idOf_inj.
  intros Haction Hinv. pose proof Hinv as (Htotal & Hrange & Hloop).
  destruct action as [id index|rows|rows|count| | |total|rows selected];
    simpl in Haction.
  - rewrite toggle_as_row. cbv zeta.
    destruct (checkIsRowSelected state id index).
    + apply stableInvariant_withLoop; [by left|done|].
      by apply (row_stable state _ (startLoop state) _ false).
    + apply stableInvariant_withLoop; [|done|].
      * pose proof (newMode_cases state true) as Hc.
        by rewrite andb_true_r in Hc.
      * by apply (row_stable state _ (startLoop state) _ true).
  - apply stableInvariant_withLoop; [|done|].
    + pose proof (newMode_cases state true) as Hc.
      by rewrite andb_true_r in Hc.
    + apply (foldl_preserves_Forall
               (loopStable idOf (wouldBaseModeSelect state) (totalRecords state))
               (rowStable idOf (totalRecords state))); [done..|].
      intros acc r Hr. by apply (row_stable state _ acc r true).
  - apply stableInvariant_withLoop; [by left|done|].
    apply (foldl_preserves_Forall
             (loopStable idOf (wouldBaseModeSelect state) (totalRecords state))
             (rowStable idOf (totalRecords state))); [done..|].
    intros acc r Hr. by apply (row_stable state _ acc r false).
  - unfold selectionReducer. case_decide; unfold stableInvariant; simpl;
      (split; [done|]; split; [intros; lia|apply loopStable_fresh]).
  - unfold stableInvariant. simpl.
    split; [done|]. split; [intros; discriminate|apply loopStable_fresh].
  - unfold stableInvariant. simpl.
    split; [done|]. split; [intros; discriminate|apply loopStable_fresh].
  - unfold stableInvariant. simpl. split; [lia|]. split.
    + intros Hm. rewrite bool_decide_eq_true_2 by done.
      specialize (Hrange Hm). lia.
    + apply (loopStable_ext (wouldBaseModeSelect state) _ (totalRecords state));
        [|done|done].
      intros index. unfold wouldBaseModeSelect. simpl.
      destruct (mode state) eqn:Hm; try done. simpl.
      specialize (Hrange eq_refl).
      by rewrite Z.min_l by lia.
  - apply stableInvariant_withLoop; [apply newMode_cases|done|].
    apply (foldl_preserves_Forall
             (loopStable idOf (wouldBaseModeSelect state) (totalRecords state))
             (rowStable idOf (totalRecords state))); [done..|].
    intros acc r Hr. by apply (row_stable state _ acc r selected).
Qed.

Lemma reachableStable_invariant state :
  reachableStable idOf state → stableInvariant idOf state.
Proof using idOf_inj.
  induction 1 as [total Htotal|state action _ IH Haction].
  - split; [done|]. split; [done|]. apply loopStable_fresh.
  - by apply stableInvariant_step.
Qed.

(** *** Counting lemmas *)

Lemma addKnownIndices_known cache ids acc :
  (∀ id, id ∈ ids → ∃ index, index ∈ acc ∧ cache !! id = Some index) →
  addKnownIndices cache ids acc = acc.
Proof.
  unfold addKnownIndices.
  apply (set_fold_ind_L
    (λ (r : gset Z) (X : gset string),
       (∀ id, id ∈ X → ∃ index, index ∈ acc ∧ cache !! id = Some index) →
       r = acc)); [done|].
  intros id X r _ IH Hknown.
  destruct (Hknown id) as (index & Hin & ->); [set_solver|].
  rewrite IH; [set_solver|]. intros id' Hin'. apply Hknown. set_solver.
Qed.

Lemma countIndicesOutsideBase_all state indices n :
  (∀ index, index ∈ indices → wouldBaseModeSelect state index = false) →
  countIndicesOutsideBase state indices n = n + Z.of_nat (size indices).
Proof.
  unfold countIndicesOutsideBase.
  apply (set_fold_ind_L
    (λ (r : Z) (X : gset Z),
       (∀ index, index ∈ X → wouldBaseModeSelect state index = false) →
       r = n + Z.of_nat (size X))).
  - intros _. rewrite size_empty. lia.
  - intros index X r Hfresh IH Hall.
    rewrite Hall by set_solver.
    rewrite IH by (intros index' Hin; apply Hall; set_solver).
    rewrite size_union, size_singleton by set_solver. lia.
Qed.

Lemma countIdsOutsideBase_all state ids n :
  (∀ id, id ∈ ids →
         ∃ index, idToIndexCache state !! id = Some index
                  ∧ wouldBaseModeSelect state index = false) →
  countIdsOutsideBase state ids n = n + Z.of_nat (size ids).
Proof.
  unfold countIdsOutsideBase.
  apply (set_fold_ind_L
    (λ (r : Z) (X : gset string),
       (∀ id, id ∈ X →
              ∃ index, idToIndexCache state !! id = Some index
                       ∧ wouldBaseModeSelect state index = false) →
       r = n + Z.of_nat (size X))).
  - intros _. rewrite size_empty. lia.
  - intros id X r Hfresh IH Hall.
    destruct (Hall id) as (index & -> & ->); [set_solver|].
    rewrite IH by (intros id' Hin; apply Hall; set_solver).
    rewrite size_union, size_singleton by set_solver. lia.
Qed.

Lemma size_image (ids : gset string) (indices : gset Z) :
  (∀ id, id ∈ ids ↔ ∃ index, index ∈ indices ∧ id = idOf index) →
  size ids = size indices.
Proof using idOf_inj.
  intros Himage.
  assert (ids = list_to_set (idOf <$> elements indices)) as ->.
  { apply set_eq. intros id.
    rewrite Himage, elem_of_list_to_set, list_elem_of_fmap.
    split.
    - intros (index & Hin & Heq). exists index.
      split; [done|]. by apply elem_of_elements.
    - intros (index & Heq & Hin). exists index.
      split; [|done]. by apply elem_of_elements. }
  rewrite size_list_to_set by (apply NoDup_fmap_2; [done|apply NoDup_elements]).
  by rewrite length_fmap.
Qed.

(** The number of indices of [0, n) that satisfy a predicate which, on
    [0, n), is membership in a set of such indices. *)
Lemma count_members (P : Z → Prop) `{∀ index, Decision (P index)}
    (members : gset Z) n :
  (∀ index, 0 ≤ index < n → (P index ↔ index ∈ members)) →
  (∀ index, index ∈ members → 0 ≤ index < n) →
  length (filter P (seqZ 0 n)) = size members.
Proof.
  intros HP Hmembers.
  assert (filter P (seqZ 0 n) ≡ₚ elements members) as ->; [|done].
  apply NoDup_Permutation.
  - apply NoDup_filter, NoDup_seqZ.
  - apply NoDup_elements.
  - intros index. rewrite list_elem_of_filter, elem_of_seqZ, elem_of_elements.
    split.
    + intros [HPi Hrange]. apply HP; [lia|done].
    + intros Hin. specialize (Hmembers index Hin). split; [|lia].
      apply HP; [lia|done].
Qed.

Lemma size_baseSet state :
  0 ≤ totalRecords state →
  (mode state = RANGE → 0 ≤ rangeCount state) →
  Z.of_nat (size (baseSet state)) =
  match mode state with
  | NONE | EXPLICIT => 0
  | RANGE => Z.min (rangeCount state) (totalRecords state)
  | ALL => totalRecords state
  end.
Proof.
  intros Htotal Hrange. unfold baseSet.
  rewrite size_list_to_set, length_seqZ by apply NoDup_seqZ.
  destruct (mode state); try lia. specialize (Hrange eq_refl). lia.
Qed.

Lemma elem_of_baseSet state index :
  0 ≤ index < totalRecords state →
  (index ∈ baseSet state ↔ wouldBaseModeSelect state index = true).
Proof.
  intros Hindex. unfold baseSet, wouldBaseModeSelect.
  rewrite elem_of_list_to_set, elem_of_seqZ.
  destruct (mode state); rewrite ?bool_decide_eq_true; split; try done; lia.
Qed.

(** *** The count and the membership query agree *)

Lemma stable_selected_iff state index :
  stableInvariant idOf state →
  0 ≤ index < totalRecords state →
  checkIsRowSelected state (idOf index) index = true ↔
  index ∈ (baseSet state ∖ excludedIndices (overrides state))
          ∪ includedIndices (overrides state).
Proof using idOf_inj.
  intros (Htotal & Hrange & Hii & Hei & Hcache & Hix & Hex) Hindex.
  simpl in Hii, Hei, Hcache, Hix, Hex.
  rewrite checkIsRowSelected_with, elem_of_union, elem_of_difference.
  rewrite elem_of_baseSet by done.
  assert (idOf index ∈ excludedIds (overrides state) ↔
          index ∈ excludedIndices (overrides state)) as Hexcluded.
  { rewrite Hei. split; [|by eauto].
    by intros (index' & Hin & ->%idOf_inj). }
  assert (idOf index ∈ includedIds (overrides state) ↔
          index ∈ includedIndices (overrides state)) as Hincluded.
  { rewrite Hii. split; [|by eauto].
    by intros (index' & Hin & ->%idOf_inj). }
  unfold selectedWith.
  destruct (decide (idOf index ∈ excludedIds _)) as [Hin|Hout].
  { apply Hexcluded in Hin. destruct (Hex index Hin) as [_ Hbase].
    split; [done|]. intros [[_ ?]|Hin']; [done|].
    destruct (Hix index Hin'). congruence. }
  destruct (decide (idOf index ∈ includedIds _)) as [Hin|Hout'].
  { apply Hincluded in Hin. tauto. }
  rewrite Hexcluded in Hout. rewrite Hincluded in Hout'.
  rewrite !decide_False by done. tauto.
Qed.

(** X11. Over a stable collection (every index has one id, rows lie within
    the collection, totalRecords is never lowered) the selected count is the
    number of records that the membership query selects, except that under
    RANGE every record selected beyond the range is counted twice: the count
    exceeds that number by the number of included indices. *)
Theorem count_is_number_selected (state : SelectionState) :
  reachableStable idOf state →
  calculateSelectedCount state =
  numberSelected idOf state
  + (if decide (mode state = RANGE)
     then Z.of_nat (size (includedIndices (overrides state)))
     else 0).
Proof using idOf_inj.
  intros Hreach.
  pose proof (reachableStable_invariant state Hreach) as Hinv.
  pose proof Hinv as (Htotal & Hrange & Hii & Hei & Hcache & Hix & Hex).
  simpl in Hii, Hei, Hcache, Hix, Hex.
  set (I := includedIndices (overrides state)) in *.
  set (E := excludedIndices (overrides state)) in *.
  (* the number of selected records *)
  assert (numberSelected idOf state
          = Z.of_nat (size (baseSet state)) - Z.of_nat (size E)
            + Z.of_nat (size I)
          ∧ Z.of_nat (size E) ≤ Z.of_nat (size (baseSet state)))
    as [Hnumber Hle].
  { assert (E ⊆ baseSet state) as Hsub.
    { intros index Hin. destruct (Hex index Hin) as [Hr Hb].
      by apply elem_of_baseSet. }
    assert (baseSet state ∖ E ## I) as Hdisj.
    { intros index [Hin _]%elem_of_difference Hin'.
      destruct (Hix index Hin') as [Hr Hb].
      apply elem_of_baseSet in Hin; [congruence|done]. }
    split; [|apply subseteq_size in Hsub; lia].
    unfold numberSelected.
    rewrite (count_members _ ((baseSet state ∖ E) ∪ I)).
    - rewrite size_union, size_difference by done.
      apply subseteq_size in Hsub. lia.
    - intros index Hindex. by apply stable_selected_iff.
    - intros index [[Hin _]%elem_of_difference|Hin]%elem_of_union.
      + unfold baseSet in Hin.
        rewrite elem_of_list_to_set, elem_of_seqZ in Hin.
        destruct (mode state); lia.
      + by destruct (Hix index Hin). }
  rewrite size_baseSet in Hnumber, Hle by (done || intros Hm; apply Hrange, Hm).
  (* the count of the code *)
  assert (∀ id, id ∈ includedIds (overrides state) →
                ∃ index, index ∈ I ∧ idToIndexCache state !! id = Some index)
    as Hknown_in.
  { intros id (index & Hin & ->)%Hii. exists index. auto. }
  assert (∀ id, id ∈ excludedIds (overrides state) →
                ∃ index, index ∈ E ∧ idToIndexCache state !! id = Some index)
    as Hknown_ex.
  { intros id (index & Hin & ->)%Hei. exists index. auto. }
  unfold calculateSelectedCount.
  rewrite !addKnownIndices_known by done.
  rewrite !countUnknownIds_known
    by (intros id Hin;
        (destruct (Hknown_in id Hin) as (? & _ & ->)
         || destruct (Hknown_ex id Hin) as (? & _ & ->)); done).
  rewrite countIndicesOutsideBase_all
    by (intros index Hin; by destruct (Hix index Hin)).
  rewrite countIdsOutsideBase_all.
  2: { intros id Hin. destruct (Hknown_in id Hin) as (index & Hin' & Hc).
       exists index. split; [done|]. by destruct (Hix index Hin'). }
  rewrite (size_image _ I) by done.
  fold I E. rewrite Hnumber.
  destruct (mode state) eqn:Hmode; simpl; try lia.
  assert (size I = 0%nat) as ->; [|lia].
  apply size_empty_iff. apply elem_of_equiv_empty. intros index Hin.
  destruct (Hix index Hin) as [_ Hb].
  unfold wouldBaseModeSelect in Hb. by rewrite Hmode in Hb.
Qed.

End StableCollection.

Lemma count_is_number_selected_witness :
  let state := run 10 [BULK_SELECT 5; TOGGLE_ROW (pretty 7) 7;
                       TOGGLE_ROW (pretty 2) 2] in
  calculateSelectedCount state =
  numberSelected pretty state
  + (if decide (mode state = RANGE)
     then Z.of_nat (size (includedIndices (overrides state)))
     else 0).
Proof.
  apply (count_is_number_selected pretty _).
  apply (stable_step _ _ (TOGGLE_ROW (pretty 2) 2)); [|by (split; [|simpl; lia])].
  apply (stable_step _ _ (TOGGLE_ROW (pretty 7) 7)); [|by (split; [|simpl; lia])].
  apply (stable_step _ _ (BULK_SELECT 5)); [|done].
  apply stable_init. lia.
Defined.

(** The two sides at that state: five records are selected (0, 1, 3, 4 and
    7), the count is six. *)
Example count_beyond_range_example :
  let state := run 10 [BULK_SELECT 5; TOGGLE_ROW (pretty 7) 7;
                       TOGGLE_ROW (pretty 2) 2] in
  numberSelected pretty state = 5 ∧ calculateSelectedCount state = 6.
Proof. by vm_compute. Qed.

(** ** The page-scoped queries of the hook *)

(** The rows kept when each row of [l] is paired with its flag of [flags]. *)
Lemma selected_rows_spec {A} (l : list A) (flags : list bool) :
  length flags = length l →
  let kept := (filter (λ p : A * bool, p.2 = true) (zip l flags)).*1 in
  (length kept ≤ length l)%nat
  ∧ (forallb (λ b, b) flags = true ↔ kept = l)
  ∧ (existsb (λ b, b) flags = true ↔ (0 < length kept)%nat)
  ∧ (length kept = length l → kept = l).
Proof.
  cbv zeta. revert flags.
  induction l as [|x l IH]; intros [|b flags] Hlen; simpl in Hlen; try lia.
  - simpl. split; [lia|]. split; [done|]. split; [|done]. split; [done|lia].
  - destruct (IH flags) as (Hle & Hall & Hsome & Hfull); [lia|].
    change (zip (x :: l) (b :: flags)) with ((x, b) :: zip l flags).
    destruct b.
    + rewrite filter_cons_True by done.
      rewrite fmap_cons. cbn [fst length forallb existsb orb andb].
      split; [lia|]. split; [|split; [split; [lia|done]|]].
      * rewrite Hall. split; [by intros ->|by intros [= ->]].
      * intros [= Heq]. f_equal. by apply Hfull.
    + rewrite filter_cons_False by done.
      cbn [length forallb existsb orb andb].
      split; [lia|]. split; [|split; [done|lia]].
      split; [done|]. intros Heq. rewrite Heq in Hle. simpl in Hle. lia.
Qed.

Lemma length_selectionStates `{PageRow T} state rowsPerPage (pageData : list T)
    currentPage :
  length (selectionStates state rowsPerPage pageData currentPage)
  = length pageData.
Proof. unfold selectionStates. apply length_imap. Qed.

(** X12. The three page-scoped queries agree with one another: a page is
    fully selected exactly when it is not empty and all its rows are returned
    as selected; it is indeterminate exactly when some but not all of its
    rows are; it is never both, and the selected rows are never more than the
    rows of the page. *)
Theorem page_queries_agree `{PageRow T} (state : SelectionState)
    (rowsPerPage : Z) (pageData : list T) (currentPage : Z) :
  let selected :=
    getSelectedRowsOnPage state rowsPerPage pageData currentPage in
  let full :=
    isCurrentPageFullySelected state rowsPerPage pageData currentPage in
  let partial :=
    isCurrentPageIndeterminate state rowsPerPage pageData currentPage in
  (full = true ↔ pageData ≠ [] ∧ selected = pageData)
  ∧ (partial = true ↔ (0 < length selected < length pageData)%nat)
  ∧ (length selected ≤ length pageData)%nat
  ∧ ¬ (full = true ∧ partial = true).
Proof.
  cbv zeta.
  unfold isCurrentPageFullySelected, isCurrentPageIndeterminate,
    getSelectedRowsOnPage.
  destruct (selected_rows_spec pageData
              (selectionStates state rowsPerPage pageData currentPage))
    as (Hle & Hall & Hsome & Hfull); [apply length_selectionStates|].
  destruct (decide (length pageData = 0%nat)) as [Hempty|Hne].
  - apply length_zero_iff_nil in Hempty. subst pageData. simpl.
    repeat split; try done; try lia; intros []; done.
  - assert (pageData ≠ []) as Hne' by (by intros ->).
    split; [rewrite Hall; tauto|].
    split; [|split; [done|]].
    + rewrite andb_true_iff, negb_true_iff, Hsome.
      split.
      * intros [Hpos Hnot]. split; [done|].
        apply Nat.le_neq. split; [done|]. intros Heq%Hfull%Hall. congruence.
      * intros [Hpos Hlt]. split; [done|].
        apply not_true_is_false. intros Htrue%Hall. rewrite Htrue in Hlt. lia.
    + intros [Hfull' [_ Hnot]%andb_true_iff]. rewrite Hfull' in Hnot. done.
Qed.

Lemma selectionStates_rows `{PageRow T} state rowsPerPage (pageData : list T)
    currentPage :
  selectionStates state rowsPerPage pageData currentPage
  = (λ r, checkIsRowSelected state (rowId r) (absoluteIndex r))
    <$> rowsWithIndices rowsPerPage pageData currentPage.
Proof. unfold selectionStates, rowsWithIndices. by rewrite fmap_imap. Qed.

Lemma forallb_fmap {A} (f : A → bool) (l : list A) :
  forallb (λ b, b) (f <$> l) = forallb f l.
Proof.
  induction l as [|x l IH]; [done|].
  rewrite fmap_cons. cbn [forallb]. by rewrite IH.
Qed.

Lemma forallb_elem_of {A} (f : A → bool) (l : list A) :
  forallb f l = true ↔ ∀ x, x ∈ l → f x = true.
Proof.
  rewrite forallb_forall. by setoid_rewrite list_elem_of_In.
Qed.

Lemma existsb_flags_false (flags : list bool) :
  (∀ b, b ∈ flags → b = false) → existsb (λ b, b) flags = false.
Proof.
  intros Hall. apply not_true_is_false.
  intros (b & Hin%list_elem_of_In & ->)%existsb_exists.
  by specialize (Hall true Hin).
Qed.

Lemma length_rowsWithIndices `{PageRow T} rowsPerPage (pageData : list T)
    currentPage :
  length (rowsWithIndices rowsPerPage pageData currentPage) = length pageData.
Proof. unfold rowsWithIndices. apply length_imap. Qed.

(** Every row of a page is selected: the page is fully selected unless it is
    empty. *)
Lemma page_full_intro `{PageRow T} state rowsPerPage (pageData : list T)
    currentPage :
  pageData ≠ [] →
  (∀ r, r ∈ rowsWithIndices rowsPerPage pageData currentPage →
        checkIsRowSelected state (rowId r) (absoluteIndex r) = true) →
  isCurrentPageFullySelected state rowsPerPage pageData currentPage = true.
Proof.
  intros Hne Hall. unfold isCurrentPageFullySelected.
  rewrite decide_False by (by destruct pageData).
  rewrite selectionStates_rows, forallb_fmap. by apply forallb_elem_of.
Qed.

Lemma page_full_elim `{PageRow T} state rowsPerPage (pageData : list T)
    currentPage r :
  isCurrentPageFullySelected state rowsPerPage pageData currentPage = true →
  r ∈ rowsWithIndices rowsPerPage pageData currentPage →
  checkIsRowSelected state (rowId r) (absoluteIndex r) = true.
Proof.
  unfold isCurrentPageFullySelected. case_decide; [done|].
  rewrite selectionStates_rows, forallb_fmap, forallb_elem_of. auto.
Qed.

(** No row of a page is selected: the page returns no selected row and is
    neither full nor indeterminate. *)
Lemma page_none_intro `{PageRow T} state rowsPerPage (pageData : list T)
    currentPage :
  (∀ r, r ∈ rowsWithIndices rowsPerPage pageData currentPage →
        checkIsRowSelected state (rowId r) (absoluteIndex r) = false) →
  getSelectedRowsOnPage state rowsPerPage pageData currentPage = []
  ∧ isCurrentPageIndeterminate state rowsPerPage pageData currentPage = false.
Proof.
  intros Hnone.
  assert (existsb (λ b, b)
            (selectionStates state rowsPerPage pageData currentPage) = false)
    as Hfalse.
  { apply existsb_flags_false. intros b.
    rewrite selectionStates_rows.
    intros (r & -> & Hr)%list_elem_of_fmap. by apply Hnone. }
  split.
  - destruct (selected_rows_spec pageData
                (selectionStates state rowsPerPage pageData currentPage))
      as (_ & _ & Hsome & _); [apply length_selectionStates|].
    unfold getSelectedRowsOnPage.
    apply length_zero_iff_nil.
    destruct (length _) eqn:Hlen; [done|].
    rewrite Hfalse in Hsome. assert (false = true) by (apply Hsome; lia). done.
  - unfold isCurrentPageIndeterminate. case_decide; [done|].
    cbv zeta. by rewrite Hfalse.
Qed.

Lemma toggle_frame state tid tindex id index :
  id ≠ tid → index ≠ tindex →
  checkIsRowSelected (selectionReducer state (TOGGLE_ROW tid tindex)) id index
  = checkIsRowSelected state id index.
Proof.
  intros Hid Hindex.
  rewrite !checkIsRowSelected_with, toggle_base, toggle_overrides.
  unfold toggleOverrides.
  apply selectedWith_ext;
    destruct (checkIsRowSelected state tid tindex),
             (wouldBaseModeSelect state tindex); simpl; set_solver.
Qed.

(** ** The header checkbox *)

(** X13. The header checkbox ([onSelectAllCurrentPage]) toggles the page: on
    a page that is not empty and not fully selected it makes the page fully
    selected; on a fully selected page it deselects every row, so that the
    page returns no selected row and is neither full nor indeterminate; on an
    empty page it leaves the state as it is. *)
Theorem header_checkbox_toggles_page `{PageRow T} (state : SelectionState)
    (rowsPerPage : Z) (pageData : list T) (currentPage : Z) :
  let state' :=
    selectionReducer state
      (onSelectAllCurrentPage state rowsPerPage pageData currentPage) in
  (pageData = [] → state' = state)
  ∧ (pageData ≠ [] →
     isCurrentPageFullySelected state rowsPerPage pageData currentPage = false →
     isCurrentPageFullySelected state' rowsPerPage pageData currentPage = true)
  ∧ (isCurrentPageFullySelected state rowsPerPage pageData currentPage = true →
     getSelectedRowsOnPage state' rowsPerPage pageData currentPage = []
     ∧ isCurrentPageFullySelected state' rowsPerPage pageData currentPage
       = false
     ∧ isCurrentPageIndeterminate state' rowsPerPage pageData currentPage
       = false).
Proof.
  cbv zeta. unfold onSelectAllCurrentPage. cbv zeta.
  set (rows := rowsWithIndices rowsPerPage pageData currentPage).
  assert (forallb (λ r, checkIsRowSelected state (rowId r) (absoluteIndex r))
            rows = true →
          pageData ≠ [] →
          isCurrentPageFullySelected state rowsPerPage pageData currentPage
          = true) as Hfull.
  { intros Hall Hne. apply page_full_intro; [done|].
    by apply forallb_elem_of. }
  split; [|split].
  - intros ->. simpl. by destruct state.
  - intros Hne Hnot.
    destruct (forallb _ rows) eqn:Hall.
    { rewrite Hfull in Hnot by done. done. }
    apply page_full_intro; [done|]. intros r Hr.
    rewrite checkIsRowSelected_with, rowCommand_base by done.
    by apply (selectLoop_selects state rows (startLoop state)).
  - intros Hfull'.
    assert (forallb (λ r, checkIsRowSelected state (rowId r) (absoluteIndex r))
              rows = true) as ->.
    { apply forallb_elem_of. intros r Hr.
      by apply (page_full_elim state rowsPerPage pageData currentPage). }
    assert (∀ r, r ∈ rows →
              checkIsRowSelected (selectionReducer state (DESELECT_ALL_PAGE rows))
                (rowId r) (absoluteIndex r) = false) as Hnone.
    { intros r Hr. rewrite checkIsRowSelected_with, rowCommand_base by done.
      by apply (deselectLoop_deselects state rows (startLoop state)). }
    destruct (page_none_intro _ rowsPerPage pageData currentPage Hnone)
      as [Hempty Hpartial].
    split; [done|]. split; [|done].
    apply not_true_is_false. intros Htrue.
    unfold isCurrentPageFullySelected in Hfull'.
    destruct pageData as [|x l]; [done|].
    assert ({| rowId := rowIdOf x;
               absoluteIndex := currentPage * rowsPerPage + Z.of_nat 0 |}
            ∈ rows) as Hin.
    { unfold rows, rowsWithIndices. simpl. set_solver. }
    pose proof (page_full_elim _ _ _ _ _ Htrue Hin) as Hsel.
    rewrite (Hnone _ Hin) in Hsel. done.
Qed.

Lemma rowsWithIndices_lookup `{PageRow T} rowsPerPage (pageData : list T)
    currentPage k :
  rowsWithIndices rowsPerPage pageData currentPage !! k
  = (λ row, {| rowId := rowIdOf row;
               absoluteIndex := currentPage * rowsPerPage + Z.of_nat k |})
    <$> pageData !! k.
Proof. unfold rowsWithIndices. apply list_lookup_imap. Qed.

Lemma selectionStates_lookup `{PageRow T} state rowsPerPage (pageData : list T)
    currentPage k :
  selectionStates state rowsPerPage pageData currentPage !! k
  = (λ row, checkIsRowSelected state (rowIdOf row)
              (currentPage * rowsPerPage + Z.of_nat k))
    <$> pageData !! k.
Proof. unfold selectionStates. apply list_lookup_imap. Qed.

Lemma existsb_flags_lookup (flags : list bool) k :
  flags !! k = Some true → existsb (λ b, b) flags = true.
Proof.
  intros Hk. apply existsb_exists. exists true. split; [|done].
  apply list_elem_of_In. by eapply list_elem_of_lookup_2.
Qed.

Lemma forallb_flags_lookup (flags : list bool) k :
  flags !! k = Some false → forallb (λ b, b) flags = false.
Proof.
  intros Hk. apply not_true_is_false. intros Hall.
  rewrite forallb_elem_of in Hall.
  assert (false = true) by (apply Hall; by eapply list_elem_of_lookup_2). done.
Qed.

(** ** One row of a full page *)

(** X14. On a fully selected page of at least two rows with distinct ids,
    toggling one row makes the page indeterminate: that row is no longer
    selected and every other row of the page still is. *)
Theorem toggle_on_full_page `{PageRow T} (state : SelectionState)
    (rowsPerPage : Z) (pageData : list T) (currentPage : Z) (k : nat)
    (row : T) :
  NoDup (rowIdOf <$> pageData) →
  (2 ≤ length pageData)%nat →
  isCurrentPageFullySelected state rowsPerPage pageData currentPage = true →
  pageData !! k = Some row →
  let state' :=
    selectionReducer state
      (onRowSelect (rowIdOf row) (currentPage * rowsPerPage + Z.of_nat k)) in
  isCurrentPageIndeterminate state' rowsPerPage pageData currentPage = true
  ∧ isCurrentPageFullySelected state' rowsPerPage pageData currentPage = false.
Proof.
  intros Hnodup Hlen Hfull Hk. cbv zeta. unfold onRowSelect.
  assert (∀ j other, pageData !! j = Some other →
            checkIsRowSelected state (rowIdOf other)
              (currentPage * rowsPerPage + Z.of_nat j) = true) as Hall.
  { intros j other Hj.
    apply (page_full_elim state rowsPerPage pageData currentPage
             {| rowId := rowIdOf other;
                absoluteIndex := currentPage * rowsPerPage + Z.of_nat j |});
      [done|].
    eapply list_elem_of_lookup_2. by rewrite rowsWithIndices_lookup, Hj. }
  (* the toggled row is no longer selected *)
  assert (selectionStates
            (selectionReducer state
               (TOGGLE_ROW (rowIdOf row)
                  (currentPage * rowsPerPage + Z.of_nat k)))
            rowsPerPage pageData currentPage !! k
          = Some false) as Hfalse.
  { rewrite selectionStates_lookup, Hk.
    cbn [fmap option_fmap option_map]. f_equal.
    rewrite toggle_flips. by rewrite (Hall k row Hk). }
  (* another row still is *)
  set (j := if decide (k = 0%nat) then 1%nat else 0%nat).
  assert (j ≠ k) as Hjk by (unfold j; case_decide; lia).
  destruct (lookup_lt_is_Some_2 pageData j) as [other Hj].
  { unfold j. case_decide; lia. }
  assert (selectionStates
            (selectionReducer state
               (TOGGLE_ROW (rowIdOf row)
                  (currentPage * rowsPerPage + Z.of_nat k)))
            rowsPerPage pageData currentPage !! j
          = Some true) as Htrue.
  { rewrite selectionStates_lookup, Hj.
    cbn [fmap option_fmap option_map]. f_equal.
    rewrite toggle_frame.
    - by apply Hall.
    - intros Heq. apply Hjk.
      apply (NoDup_lookup (rowIdOf <$> pageData) j k (rowIdOf other));
        [done| |]; rewrite list_lookup_fmap.
      + by rewrite Hj.
      + by rewrite Hk, Heq.
    - lia. }
  unfold isCurrentPageIndeterminate, isCurrentPageFullySelected.
  destruct (decide (length pageData = 0%nat)); [lia|]. cbv zeta.
  rewrite (existsb_flags_lookup _ j Htrue), (forallb_flags_lookup _ k Hfalse).
  done.
Qed.

Lemma toggle_on_full_page_witness :
  let state :=
    selectionReducer (createInitialState 1000)
      (SELECT_ALL_PAGE (rowsWithIndices 12 examplePage 0)) in
  isCurrentPageFullySelected state 12 examplePage 0 = true
  ∧ isCurrentPageIndeterminate
      (selectionReducer state (onRowSelect "28560" 1)) 12 examplePage 0 = true.
Proof.
  split; [by vm_compute|].
  refine (proj1 (toggle_on_full_page
    (selectionReducer (createInitialState 1000)
       (SELECT_ALL_PAGE (rowsWithIndices 12 examplePage 0)))
    12 examplePage 0 1
    (transformArtwork
       {| ArtworkData.id := 28560;
          ArtworkData.title := Some EmptyString;
          ArtworkData.place_of_origin := None;
          ArtworkData.artist_titles := None;
          ArtworkData.inscriptions := Some "signed";
          ArtworkData.date_start := None;
          ArtworkData.date_end := None |}) _ _ _ _)).
  - apply (bool_decide_unpack _). by vm_compute.
  - simpl. lia.
  - by vm_compute.
  - done.
Defined.

Lemma header_checkbox_toggles_page_witness :
  let state := createInitialState 1000 in
  examplePage ≠ []
  ∧ isCurrentPageFullySelected state 12 examplePage 0 = false
  ∧ isCurrentPageFullySelected
      (selectionReducer state (onSelectAllCurrentPage state 12 examplePage 0))
      12 examplePage 0 = true.
Proof.
  split; [done|]. split; [by vm_compute|].
  apply (proj1 (proj2 (header_checkbox_toggles_page
                         (createInitialState 1000) 12 examplePage 0)));
    [done|by vm_compute].
Defined.

(** ** The selection of the table *)

Lemma omap_imap {A B C} (g : B → option C) (h : nat → A → B) (l : list A) :
  omap g (imap h l) = omap (λ d, d) (imap (λ k x, g (h k x)) l).
Proof.
  revert h. induction l as [|x l IH]; intros h; [done|].
  rewrite !imap_cons. cbn [omap list_omap]. rewrite IH. done.
Qed.

Lemma rowsWithIndices_ids `{PageRow T} rowsPerPage (pageData : list T)
    currentPage :
  rowId <$> rowsWithIndices rowsPerPage pageData currentPage
  = rowIdOf <$> pageData.
Proof.
  apply list_eq. intros k.
  rewrite !list_lookup_fmap, rowsWithIndices_lookup.
  by destruct (pageData !! k).
Qed.

Lemma rowsWithIndices_indices_NoDup `{PageRow T} rowsPerPage
    (pageData : list T) currentPage :
  NoDup (absoluteIndex <$> rowsWithIndices rowsPerPage pageData currentPage).
Proof.
  apply NoDup_alt. intros i j index.
  rewrite !list_lookup_fmap, !rowsWithIndices_lookup.
  destruct (pageData !! i), (pageData !! j); simpl; try done.
  intros [= <-] [= Heq]. lia.
Qed.

(** A list of toggles, one for each row that is to be flipped, applied in
    the order of the rows: every row ends flipped or not as asked, and the
    records that are not among the rows keep their membership. *)
Lemma toggles_apply (flip : IndexedRow → bool) (rows : list IndexedRow)
    (state : SelectionState) :
  NoDup (rowId <$> rows) → NoDup (absoluteIndex <$> rows) →
  let state' :=
    foldl selectionReducer state
      (omap (λ r, if flip r
                  then Some (TOGGLE_ROW (rowId r) (absoluteIndex r))
                  else None) rows) in
  (∀ r, r ∈ rows →
        checkIsRowSelected state' (rowId r) (absoluteIndex r)
        = xorb (flip r) (checkIsRowSelected state (rowId r) (absoluteIndex r)))
  ∧ (∀ id index, id ∉ rowId <$> rows → index ∉ absoluteIndex <$> rows →
                 checkIsRowSelected state' id index
                 = checkIsRowSelected state id index).
Proof.
  cbv zeta. revert state.
  induction rows as [|r rows IH]; intros state Hids Hindices.
  - split; [intros r Hr; set_solver|done].
  - rewrite fmap_cons in Hids. rewrite fmap_cons in Hindices.
    apply NoDup_cons in Hids as [Hid Hids].
    apply NoDup_cons in Hindices as [Hindex Hindices].
    set (state1 := if flip r
                   then selectionReducer state
                          (TOGGLE_ROW (rowId r) (absoluteIndex r))
                   else state).
    assert (foldl selectionReducer state
              (omap (λ r, if flip r
                          then Some (TOGGLE_ROW (rowId r) (absoluteIndex r))
                          else None) (r :: rows))
            = foldl selectionReducer state1
                (omap (λ r, if flip r
                            then Some (TOGGLE_ROW (rowId r) (absoluteIndex r))
                            else None) rows)) as ->.
    { unfold state1. cbn [omap list_omap]. by destruct (flip r). }
    destruct (IH state1 Hids Hindices) as [Hrows Hframe].
    assert (∀ id index, id ≠ rowId r → index ≠ absoluteIndex r →
              checkIsRowSelected state1 id index
              = checkIsRowSelected state id index) as Hframe1.
    { intros id index Hne1 Hne2. unfold state1.
      destruct (flip r); [|done]. by apply toggle_frame. }
    split.
    + intros r' [->|Hin]%elem_of_cons.
      * rewrite Hframe by done. unfold state1.
        destruct (flip r); [|done]. by rewrite toggle_flips.
      * rewrite (Hrows r' Hin). f_equal. apply Hframe1.
        -- intros Heq. apply Hid. rewrite <- Heq. set_solver.
        -- intros Heq. apply Hindex. rewrite <- Heq. set_solver.
    + intros id index Hout1 Hout2.
      rewrite fmap_cons in Hout1. rewrite fmap_cons in Hout2.
      rewrite Hframe by set_solver. apply Hframe1; set_solver.
Qed.

Lemma elem_of_getSelectedRowsOnPage `{PageRow T} state rowsPerPage
    (pageData : list T) currentPage (row : T) :
  row ∈ getSelectedRowsOnPage state rowsPerPage pageData currentPage ↔
  ∃ k, pageData !! k = Some row
       ∧ checkIsRowSelected state (rowIdOf row)
           (currentPage * rowsPerPage + Z.of_nat k) = true.
Proof.
  unfold getSelectedRowsOnPage. rewrite list_elem_of_fmap. split.
  - intros ([row' flag] & -> & [Hflag Hin]%list_elem_of_filter).
    simpl in Hflag. subst flag.
    apply elem_of_lookup_zip_with in Hin as (k & y & z & [= <- <-] & Hy & Hz).
    exists k. split; [done|].
    rewrite selectionStates_lookup, Hy in Hz. by injection Hz.
  - intros (k & Hk & Hsel). exists (row, true). split; [done|].
    apply list_elem_of_filter. split; [done|].
    apply elem_of_lookup_zip_with. exists k, row, true.
    split; [done|]. split; [done|].
    by rewrite selectionStates_lookup, Hk, <- Hsel.
Qed.

(** With distinct ids on the page, an id is among the ids of the selected
    rows exactly when its own row is selected. *)
Lemma was_selected `{PageRow T} state rowsPerPage (pageData : list T)
    currentPage k (row : T) :
  NoDup (rowIdOf <$> pageData) →
  pageData !! k = Some row →
  bool_decide
    (rowIdOf row ∈
     (list_to_set
        (rowIdOf <$> getSelectedRowsOnPage state rowsPerPage pageData
                       currentPage) : gset string))
  = checkIsRowSelected state (rowIdOf row)
      (currentPage * rowsPerPage + Z.of_nat k).
Proof.
  intros Hnodup Hk.
  destruct (checkIsRowSelected state (rowIdOf row) _) eqn:Hsel.
  - apply bool_decide_eq_true_2, elem_of_list_to_set, list_elem_of_fmap.
    exists row. split; [done|].
    apply elem_of_getSelectedRowsOnPage. eauto.
  - apply bool_decide_eq_false_2.
    intros (other & Heq & Hin)%elem_of_list_to_set%list_elem_of_fmap.
    apply elem_of_getSelectedRowsOnPage in Hin as (j & Hj & Hsel').
    assert (j = k) as ->.
    { apply (NoDup_lookup (rowIdOf <$> pageData) j k (rowIdOf other));
        [done| |]; rewrite list_lookup_fmap.
      - by rewrite Hj.
      - rewrite Hk. simpl. congruence. }
    assert (other = row) as -> by congruence. congruence.
Qed.

(** X15. When the table reports a new selection for a page whose rows have
    distinct ids, the toggles that [handleSelectionChange] dispatches leave
    each row of the page selected exactly when its id is in the new
    selection, and leave every record whose id and index are not on the page
    as it was. *)
Theorem selection_change_applies (state : SelectionState)
    (artworks : list Artwork.t) (currentPage : Z)
    (newSelection : list Artwork.t) :
  NoDup (Artwork.id <$> artworks) →
  let final :=
    foldl selectionReducer state
      (ArtworkTable.handleSelectionChange state artworks currentPage
         newSelection) in
  (∀ k artwork, artworks !! k = Some artwork →
     checkIsRowSelected final (Artwork.id artwork)
       (currentPage * ArtworkTable.ROWS_PER_PAGE + Z.of_nat k)
     = bool_decide (Artwork.id artwork ∈ Artwork.id <$> newSelection))
  ∧ (∀ id index,
       id ∉ Artwork.id <$> artworks →
       index ∉ absoluteIndex
               <$> rowsWithIndices ArtworkTable.ROWS_PER_PAGE artworks
                     currentPage →
       checkIsRowSelected final id index = checkIsRowSelected state id index).
Proof.
  intros Hnodup. cbv zeta.
  set (rows := rowsWithIndices ArtworkTable.ROWS_PER_PAGE artworks currentPage).
  set (currentIds :=
         (list_to_set
            (Artwork.id <$> getSelectedRowsOnPage state
                              ArtworkTable.ROWS_PER_PAGE artworks currentPage)
          : gset string)).
  set (newIds := (list_to_set (Artwork.id <$> newSelection) : gset string)).
  set (flip := λ r : IndexedRow,
         negb (eqb (bool_decide (rowId r ∈ currentIds))
                   (bool_decide (rowId r ∈ newIds)))).
  assert (ArtworkTable.handleSelectionChange state artworks currentPage
            newSelection
          = omap (λ r, if flip r
                       then Some (TOGGLE_ROW (rowId r) (absoluteIndex r))
                       else None) rows) as ->.
  { unfold rows, rowsWithIndices.
    rewrite (omap_imap
               (λ r, if flip r
                     then Some (TOGGLE_ROW (rowId r) (absoluteIndex r))
                     else None)).
    reflexivity. }
  destruct (toggles_apply flip rows state) as [Hrows Hframe].
  { unfold rows. by rewrite rowsWithIndices_ids. }
  { apply rowsWithIndices_indices_NoDup. }
  split.
  - intros k artwork Hk.
    assert ({| rowId := Artwork.id artwork;
               absoluteIndex :=
                 currentPage * ArtworkTable.ROWS_PER_PAGE + Z.of_nat k |}
            ∈ rows) as Hin.
    { eapply list_elem_of_lookup_2. unfold rows.
      by rewrite rowsWithIndices_lookup, Hk. }
    pose proof (Hrows _ Hin) as Hrow. cbn [rowId absoluteIndex] in Hrow.
    rewrite Hrow. unfold flip. cbn [rowId absoluteIndex].
    assert (bool_decide (Artwork.id artwork ∈ currentIds)
            = checkIsRowSelected state (Artwork.id artwork)
                (currentPage * ArtworkTable.ROWS_PER_PAGE + Z.of_nat k)) as ->
      by exact (was_selected state ArtworkTable.ROWS_PER_PAGE artworks
                  currentPage k artwork Hnodup Hk).
    assert (bool_decide (Artwork.id artwork ∈ newIds)
            = bool_decide (Artwork.id artwork ∈ Artwork.id <$> newSelection))
      as ->.
    { apply bool_decide_ext. unfold newIds. apply elem_of_list_to_set. }
    by destruct (checkIsRowSelected state _ _), (bool_decide _).
  - intros id index Hid Hindex. apply Hframe; [|done].
    unfold rows. by rewrite rowsWithIndices_ids.
Qed.

Lemma selection_change_applies_witness :
  let state := createInitialState 1000 in
  let final :=
    foldl selectionReducer state
      (ArtworkTable.handleSelectionChange state examplePage 0
         (drop 1 examplePage)) in
  checkIsRowSelected final "27992" 0 = false
  ∧ checkIsRowSelected final "28560" 1 = true.
Proof.
  destruct (selection_change_applies (createInitialState 1000) examplePage 0
              (drop 1 examplePage)) as [Hrows _].
  { apply (bool_decide_unpack _). by vm_compute. }
  split.
  - exact (Hrows 0%nat _ eq_refl).
  - exact (Hrows 1%nat _ eq_refl).
Defined.

(** * Properties of the row types, the table and the data hook *)

Lemma pretty_N_go_nonempty x s :
  s ≠ EmptyString → pretty_N_go x s ≠ EmptyString.
Proof.
  revert s. induction (N.lt_wf_0 x) as [x _ IH]; intros s Hs.
  assert (x = 0 ∨ 0 < x)%N as [->|Hpos] by lia.
  - by rewrite pretty_N_go_0.
  - rewrite pretty_N_go_step by done. apply IH; [by apply N.div_lt|done].
Qed.

Lemma pretty_Z_nonempty (z : Z) : pretty z ≠ EmptyString.
Proof.
  assert (∀ p : positive, pretty p ≠ EmptyString) as Hpos.
  { intros p. unfold pretty, pretty_positive, pretty, pretty_N.
    rewrite decide_False by done.
    rewrite pretty_N_go_step by done. by apply pretty_N_go_nonempty. }
  destruct z as [|p|p]; [done|apply Hpos|done].
Qed.

Lemma orElse_nonempty v fallback :
  fallback ≠ EmptyString → orElse v fallback ≠ EmptyString.
Proof. intros Hf. unfold orElse. destruct v; [case_decide|]; done. Qed.

(** X16. [transformArtwork] never yields a blank id, title, place of origin,
    inscription or date: a missing or empty value is replaced by its
    placeholder.  Without artist titles the artist list is empty and the
    display text is "Unknown Artist". *)
Theorem transformArtwork_never_blank (data : ArtworkData.t) :
  let artwork := transformArtwork data in
  Artwork.id artwork ≠ EmptyString
  ∧ Artwork.title artwork ≠ EmptyString
  ∧ Artwork.placeOfOrigin artwork ≠ EmptyString
  ∧ Artwork.inscriptions artwork ≠ EmptyString
  ∧ Artwork.dateStart artwork ≠ EmptyString
  ∧ Artwork.dateEnd artwork ≠ EmptyString
  ∧ (ArtworkData.artist_titles data = None
     ∨ ArtworkData.artist_titles data = Some [] →
     Artwork.artists artwork = []
     ∧ Artwork.artistDisplay artwork = "Unknown Artist").
Proof.
  cbv zeta. unfold transformArtwork. simpl.
  split; [apply pretty_Z_nonempty|].
  do 3 (split; [by apply orElse_nonempty|]).
  split; [destruct (ArtworkData.date_start data);
          [apply pretty_Z_nonempty|done]|].
  split; [destruct (ArtworkData.date_end data);
          [apply pretty_Z_nonempty|done]|].
  by intros [-> | ->].
Qed.

(** X17. [transformArtwork] keeps records apart: records with distinct
    numeric ids get distinct row ids, so a page of records with distinct ids
    is a page of rows with distinct ids. *)
Theorem transformArtwork_ids_distinct (records : list ArtworkData.t) :
  NoDup (ArtworkData.id <$> records) →
  NoDup (Artwork.id <$> (transformArtwork <$> records)).
Proof.
  intros Hnodup. rewrite <- list_fmap_compose.
  assert (Artwork.id ∘ transformArtwork = pretty ∘ ArtworkData.id) as ->
    by done.
  rewrite list_fmap_compose. by apply (NoDup_fmap_2 pretty).
Qed.

Lemma transformArtwork_ids_distinct_witness :
  NoDup (Artwork.id <$> examplePage).
Proof.
  apply (transformArtwork_ids_distinct exampleData).
  apply (bool_decide_unpack _). by vm_compute.
Defined.

Lemma pageAfter_nonneg firsts : 0 ≤ pageAfter firsts.
Proof.
  unfold pageAfter. apply (foldl_preserves (λ page, 0 ≤ page)); [done|].
  intros page first Hpage.
  unfold ArtworkTable.handlePageChange, ArtworkDataHook.onPageChange.
  cbv zeta. case_decide; lia.
Qed.

(** X18. Whatever the paginator events, the current page never becomes
    negative, so the request that the data hook makes for the page of the
    table always passes the validation of [fetchArtworks]: exactly one
    request is issued, for page [currentPage + 1] and limit 12, and the call
    never fails on its arguments. *)
Theorem table_requests_are_valid (firsts : list (option Z))
    (fetch : ArtworkService.URL → ArtworkService.FetchOutcome) :
  let currentPage := pageAfter firsts in
  let call :=
    ArtworkDataHook.loadRequest fetch currentPage ArtworkTable.ROWS_PER_PAGE in
  0 ≤ currentPage
  ∧ ArtworkService.requests call
    = [ArtworkService.requestFor (currentPage + 1) 12]
  ∧ ArtworkService.failureOf fetch (currentPage + 1) 12
    ≠ Some ArtworkService.InvalidPage
  ∧ ArtworkService.failureOf fetch (currentPage + 1) 12
    ≠ Some ArtworkService.InvalidLimit.
Proof.
  cbv zeta. pose proof (pageAfter_nonneg firsts) as Hpage.
  split; [done|].
  unfold ArtworkDataHook.loadRequest, ArtworkTable.ROWS_PER_PAGE,
    ArtworkService.fetchArtworks, ArtworkService.failureOf,
    ArtworkService.throwError.
  cbv zeta.
  rewrite !(decide_False (P := pageAfter firsts + 1 < 1)) by lia.
  rewrite (decide_False (P := 12 < 1 ∨ 12 > 100)) by lia.
  rewrite (decide_False (P := 12 < 1 ∨ 100 < 12)) by lia.
  fold (ArtworkService.requestFor (pageAfter firsts + 1) 12).
  destruct (fetch _) as [reason|response]; [done|].
  destruct (ArtworkService.ok response); simpl; [|done].
  destruct (ArtworkService.json response) as [reason|data]; [done|].
  destruct (ArtworkService.truthy data),
    (ArtworkService.truthyProperty data "data"),
    (ArtworkService.truthyProperty data "pagination"); done.
Qed.

(** X19. What an error of [fetchArtworks] carries: an HTTP failure carries
    the status of the response as [statusCode] and no cause; a connectivity
    failure and a body that does not parse carry the rejection reason as
    [cause] and no status code; the other failures carry neither. *)
Theorem error_details (fetch : ArtworkService.URL → ArtworkService.FetchOutcome)
    (page limit : Z) (e : ArtworkService.ArtworkServiceError) :
  ArtworkService.outcome (ArtworkService.fetchArtworks fetch page limit)
  = inl e →
  match ArtworkService.failureOf fetch page limit with
  | Some ArtworkService.HttpFailure =>
      ∃ response,
        fetch (ArtworkService.requestFor page limit) = inr response
        ∧ ArtworkService.statusCode e
          = Some (ArtworkService.status response)
        ∧ ArtworkService.cause e = None
  | Some ArtworkService.ConnectivityFailure =>
      ∃ reason,
        fetch (ArtworkService.requestFor page limit) = inl reason
        ∧ ArtworkService.cause e = Some reason
        ∧ ArtworkService.statusCode e = None
  | Some ArtworkService.MalformedBody =>
      ∃ response reason,
        fetch (ArtworkService.requestFor page limit) = inr response
        ∧ ArtworkService.json response = inl reason
        ∧ ArtworkService.cause e = Some reason
        ∧ ArtworkService.statusCode e = None
  | Some _ =>
      ArtworkService.statusCode e = None ∧ ArtworkService.cause e = None
  | None => False
  end.
Proof.
  unfold ArtworkService.fetchArtworks, ArtworkService.failureOf,
    ArtworkService.throwError.
  destruct (decide (page < 1)); [by intros [= <-]|].
  destruct (decide (limit < 1 ∨ limit > 100)) as [?|Hlimit].
  { rewrite decide_True by lia. by intros [= <-]. }
  rewrite decide_False by lia.
  fold (ArtworkService.requestFor page limit).
  destruct (fetch _) as [reason|response] eqn:Hfetch.
  { intros [= <-]. by exists reason. }
  destruct (ArtworkService.ok response); simpl.
  2: { intros [= <-]. by exists response. }
  destruct (ArtworkService.json response) as [reason|data] eqn:Hjson.
  { intros [= <-]. by exists response, reason. }
  destruct (ArtworkService.truthy data),
    (ArtworkService.truthyProperty data "data"),
    (ArtworkService.truthyProperty data "pagination"); simpl;
    by intros [= <-].
Qed.

Lemma error_details_witness :
  let fetch := λ _ : ArtworkService.URL,
    inr {| ArtworkService.ok := false; ArtworkService.status := 503;
           ArtworkService.statusText := "Service Unavailable";
           ArtworkService.json := inl "no body" |} in
  ∃ e, ArtworkService.outcome (ArtworkService.fetchArtworks fetch 1 12) = inl e
       ∧ ArtworkService.statusCode e = Some 503.
Proof.
  eexists. split; [reflexivity|].
  destruct (error_details
    (λ _, inr {| ArtworkService.ok := false; ArtworkService.status := 503;
                 ArtworkService.statusText := "Service Unavailable";
                 ArtworkService.json := inl "no body" |})
    1 12 _ eq_refl) as (response & [= <-] & Hcode & _).
  exact Hcode.
Defined.

(** X20. The messages of HTTP failures tell the groups of statuses apart:
    400, 404, 429, the four gateway statuses 500, 502, 503 and 504, and every
    other status.  Two statuses of different groups never get the same
    message, whatever the status texts; within each of the first four groups
    the message does not depend on the status text. *)
Theorem http_messages_by_group (st st' : Z) (text text' : string) :
  (httpGroup st ≠ httpGroup st' →
   ArtworkService.httpErrorMessage st text
   ≠ ArtworkService.httpErrorMessage st' text')
  ∧ (httpGroup st = httpGroup st' → httpGroup st ≠ OtherStatus →
     ArtworkService.httpErrorMessage st text
     = ArtworkService.httpErrorMessage st' text').
Proof.
  unfold httpGroup, ArtworkService.httpErrorMessage.
  split; repeat case_decide; simpl; try done; intros; done.
Qed.
